(** * Statistics dialogs: the report registry and the tabular export

    A shallow embedding of [ui/qt/tap_parameter_dialog.cpp]: the registry
    [cfg_str_to_creator_] with [registerDialog] and
    [showTapParameterStatistics], the cell formatter [itemDataToPlain] and
    the serializer [getTreeAsString] with its four formats.

    Conventions.  A [QString] and a [QByteArray] are both a [string]: one
    character per code unit, [toUtf8] is the identity (the embedding is
    exact on ASCII text).  A C++ [int] is a [Z]; list indices and sizes
    are [nat].  An indexed access [l[i]] of a [QList] is a lookup that can
    fail, so the functions that use one return an [option]. *)

From Stdlib Require Import ZArith Ascii DecimalString.
From stdpp Require Import base option list gmap strings.

Local Open Scope Z_scope.

(** ** The Qt string operations the dialog calls

    These are library functions, modelled after Qt's documentation of
    [QString] and [QByteArray]. *)
Module QString.

(** The two characters that cannot be written inside a literal: the
    line feed (code 10) and the double quote (code 34). *)
Definition LF : ascii := Ascii false true false true false false false false.
Definition DQUOTE : ascii := Ascii false true false false false true false false.

Definition length (s : string) : Z := Z.of_nat (String.length s).

(** [QByteArray::fill(ch, size)]: [size] copies of [ch]. *)
Fixpoint copies (ch : ascii) (n : nat) : string :=
  match n with
  | O => ""
  | S n' => String ch (copies ch n')
  end.

Definition fill (ch : ascii) (size : Z) : string := copies ch (Z.to_nat size).

(** [QString::contains(ch)]. *)
Fixpoint contains (c : ascii) (s : string) : bool :=
  match s with
  | EmptyString => false
  | String a rest => Stdlib.Strings.Ascii.eqb a c || contains c rest
  end.

(** [QStringList::join(sep)]. *)
Definition join (sep : string) (parts : list string) : string :=
  String.concat sep parts.

(** [QString::append] applied to each string of a list in turn. *)
Definition appendAll (parts : list string) : string :=
  foldr String.append "" parts.

(** *** Place markers

    [QString::arg] looks for place markers: a percent sign, an optional
    [L], and one or two decimal digits. *)
Definition digitValue (c : ascii) : option nat :=
  match c with
  | "0"%char => Some 0%nat | "1"%char => Some 1%nat | "2"%char => Some 2%nat
  | "3"%char => Some 3%nat | "4"%char => Some 4%nat | "5"%char => Some 5%nat
  | "6"%char => Some 6%nat | "7"%char => Some 7%nat | "8"%char => Some 8%nat
  | "9"%char => Some 9%nat
  | _ => None
  end.

Inductive token :=
| TText (c : ascii)
| TEscape (number : nat) (raw : string).

Definition str1 (a : ascii) : string := String a "".
Definition str2 (a b : ascii) : string := String a (String b "").
Definition str3 (a b c : ascii) : string := String a (String b (String c "")).
Definition str4 (a b c d : ascii) : string :=
  String a (String b (String c (String d ""))).

(** The scan of [findArgEscapes]: after a percent sign that starts no
    marker the scan resumes at the character that broke the marker. *)
Fixpoint tokenize (s : string) : list token :=
  match s with
  | EmptyString => []
  | String c s1 =>
    if Stdlib.Strings.Ascii.eqb c "%" then
      match s1 with
      | EmptyString => [TText c]
      | String c1 s2 =>
        if Stdlib.Strings.Ascii.eqb c1 "L" then
          match s2 with
          | EmptyString => [TText c; TText c1]
          | String c2 s3 =>
            match digitValue c2 with
            | None => TText c :: TText c1 :: tokenize s2
            | Some d =>
              match s3 with
              | EmptyString => [TEscape d (str3 c c1 c2)]
              | String c3 s4 =>
                match digitValue c3 with
                | Some d' =>
                  TEscape (10 * d + d') (str4 c c1 c2 c3) :: tokenize s4
                | None => TEscape d (str3 c c1 c2) :: tokenize s3
                end
              end
            end
          end
        else
          match digitValue c1 with
          | None => TText c :: tokenize s1
          | Some d =>
            match s2 with
            | EmptyString => [TEscape d (str2 c c1)]
            | String c2 s3 =>
              match digitValue c2 with
              | Some d' => TEscape (10 * d + d') (str3 c c1 c2) :: tokenize s3
              | None => TEscape d (str2 c c1) :: tokenize s2
              end
            end
          end
      end
    else TText c :: tokenize s1
  end.

Definition numbers (ts : list token) : list nat :=
  omap (fun t => match t with TEscape n _ => Some n | TText _ => None end) ts.

(** The lowest marker number of a template, if it has a marker. *)
Definition lowest (ns : list nat) : option nat :=
  match ns with
  | [] => None
  | n :: ns' => Some (foldr Nat.min n ns')
  end.

(** The padding of [replaceArgEscapes]: a positive field width pads on
    the left (right-aligned text), a negative one on the right. *)
Definition pad (a : string) (fieldWidth : Z) : string :=
  let pad_chars := Z.max (Z.abs fieldWidth) (length a) - length a in
  (if 0 <? fieldWidth then fill " " pad_chars else "")
    +:+ a +:+ (if fieldWidth <? 0 then fill " " pad_chars else "").

Definition render (subst : nat -> option string) (t : token) : string :=
  match t with
  | TText c => str1 c
  | TEscape n raw => default raw (subst n)
  end.

(** [QString::arg(a, fieldWidth)]: every occurrence of the lowest
    numbered marker is replaced by [a], padded to the field width; a
    template without marker is returned as it is. *)
Definition arg (s a : string) (fieldWidth : Z) : string :=
  let ts := tokenize s in
  match lowest (numbers ts) with
  | None => s
  | Some m =>
    appendAll
      (map (render (fun n => if Nat.eqb n m then Some (pad a fieldWidth) else None)) ts)
  end.

(** The distinct marker numbers in increasing order ([numbersUsed]). *)
Fixpoint insertNumber (n : nat) (ns : list nat) : list nat :=
  match ns with
  | [] => [n]
  | k :: ns' =>
    if Nat.ltb n k then n :: ns
    else if Nat.eqb n k then ns
    else k :: insertNumber n ns'
  end.

Definition numbersUsed (ts : list token) : list nat :=
  foldr insertNumber [] (numbers ts).

Fixpoint indexOf (n : nat) (ns : list nat) : option nat :=
  match ns with
  | [] => None
  | k :: ns' => if Nat.eqb n k then Some 0%nat else S <$> indexOf n ns'
  end.

(** [QString::arg(a1, a2)] ([multiArg]): the markers are replaced in one
    pass, the lowest number by the first argument, the next by the
    second; the inserted texts are not scanned again. *)
Definition multiArg (s : string) (args : list string) : string :=
  let ts := tokenize s in
  let used := numbersUsed ts in
  appendAll (map (render (fun n => indexOf n used ≫= fun i => args !! i)) ts).

(** [QString::toHtmlEscaped] (Qt 5) and [Qt::escape] (Qt 4): the HTML
    metacharacters [<], [>], [&] and the double quote are replaced by
    entities, every other character is copied. *)
Definition escapeChar (c : ascii) : string :=
  if Stdlib.Strings.Ascii.eqb c "<" then "&lt;"
  else if Stdlib.Strings.Ascii.eqb c ">" then "&gt;"
  else if Stdlib.Strings.Ascii.eqb c "&" then "&amp;"
  else if Stdlib.Strings.Ascii.eqb c DQUOTE then "&quot;"
  else str1 c.

Fixpoint toHtmlEscaped (s : string) : string :=
  match s with
  | EmptyString => ""
  | String c rest => escapeChar c +:+ toHtmlEscaped rest
  end.

(** *** Comparisons without regard to case, and C strings *)

(** The lower case letter of a capital letter of the ASCII range; every
    other character is left as it is. *)
Definition toLower (c : ascii) : ascii :=
  let n := nat_of_ascii c in
  if (65 <=? n)%nat && (n <=? 90)%nat then ascii_of_nat (n + 32) else c.

Definition eqbCI (a b : ascii) : bool :=
  Stdlib.Strings.Ascii.eqb (toLower a) (toLower b).

(** [QString::startsWith(prefix, Qt::CaseInsensitive)]. *)
Fixpoint startsWithCI (s prefix : string) {struct prefix} : bool :=
  match prefix with
  | EmptyString => true
  | String p prefix' =>
    match s with
    | EmptyString => false
    | String a s' => eqbCI a p && startsWithCI s' prefix'
    end
  end.

(** [QString::contains(str, Qt::CaseInsensitive)]. *)
Fixpoint containsCI (s needle : string) : bool :=
  startsWithCI s needle
  || match s with
     | EmptyString => false
     | String _ s' => containsCI s' needle
     end.

(** [QString::endsWith(suffix, Qt::CaseInsensitive)]. *)
Definition endsWithCI (s suffix : string) : bool :=
  let n := String.length s in
  let m := String.length suffix in
  (m <=? n)%nat && startsWithCI (String.substring (n - m) m s) suffix.

(** [QString::isEmpty]. *)
Definition isEmpty (s : string) : bool :=
  match s with
  | EmptyString => true
  | String _ _ => false
  end.

(** The C string at the start of a byte array: the bytes before the
    first zero byte.  This is what a [char *] reader such as [fputs]
    sees of [QByteArray::data()], and what the conversion of a byte array
    to a [QString] keeps. *)
Fixpoint cString (s : string) : string :=
  match s with
  | EmptyString => ""
  | String c rest =>
    if Stdlib.Strings.Ascii.eqb c Ascii.zero then "" else String c (cString rest)
  end.

End QString.

Import QString.

(** [length] stays the length of a list; the length of a string is
    written [QString.length]. *)
Abbreviation length := List.length.

(** ** The data model of a statistics dialog *)

(** [st_format_type] of the statistics tree. *)
Inductive st_format_type :=
| ST_FORMAT_PLAIN
| ST_FORMAT_CSV
| ST_FORMAT_XML
| ST_FORMAT_YAML.

(** A [QVariant] as the serializer distinguishes them: the four types
    it tests for, and any other type with the text its [toString] gives.
    Floating point numbers are not modelled: [double] is an abstract type
    that comes with its two renderings. *)
Inductive QVariant (double : Type) :=
| VString (s : string)
| VInt (n : Z)
| VUInt (n : N)
| VDouble (d : double)
| VOther (text : string).

Arguments VString {double} s.
Arguments VInt {double} n.
Arguments VUInt {double} n.
Arguments VDouble {double} d.
Arguments VOther {double} text.

(** The statistics tree as the serializer reads it: the header labels
    ([columnCount] of them) and the items that the iterator with the
    [NotHidden] flag visits, in its order. *)
Record QTreeWidget (QTreeWidgetItem : Type) := {
  headerLabels : list string;
  visibleItems : list QTreeWidgetItem
}.

Arguments headerLabels {QTreeWidgetItem} _.
Arguments visibleItems {QTreeWidgetItem} _.

(** The dialog object: its tree, [windowSubtitle()], [cap_file_.fileName()]
    and the implementation of the virtual [treeItemData]. *)
Record TapParameterDialog (double QTreeWidgetItem : Type) := {
  statsTreeWidget : QTreeWidget QTreeWidgetItem;
  windowSubtitle : string;
  fileName : string;
  treeItemData : QTreeWidgetItem -> list (QVariant double)
}.

Arguments statsTreeWidget {double QTreeWidgetItem} _.
Arguments windowSubtitle {double QTreeWidgetItem} _.
Arguments fileName {double QTreeWidgetItem} _.
Arguments treeItemData {double QTreeWidgetItem} _ _.

(** ** Reports used in the examples

    A floating point number is the pair of its two renderings, and an item
    of the tree is its own row of cells. *)

Definition number : Type := string * string.
Definition row : Type := list (QVariant number).
Definition report : Type := TapParameterDialog number row.

Definition mkReport (labels : list string) (rows : list row) (title file : string)
    : report :=
  {| statsTreeWidget := {| headerLabels := labels; visibleItems := rows |};
     windowSubtitle := title;
     fileName := file;
     treeItemData := fun tid => tid |}.

(** The report of the specification: two columns, two rows. *)
Definition report_demo : report :=
  mkReport ["Name"; "Count"]
    [[VString "alice"; VInt 3]; [VString "bob"; VInt 15]] "Demo" "cap.pcap".

Definition report_protocols : report :=
  mkReport ["Protocol"; "Packets"]
    [[VString "udp"; VInt 120]; []; [VString "tcp"; VInt 1234567890]]
    "Protocols" "cap.pcap".

(** A report with two header columns whose only row has one cell. *)
Definition report_short : report :=
  mkReport ["A"; "B"] [[VString "x"]] "Short" "cap.pcap".

(** A report whose title, label and cell hold an apostrophe. *)
Definition report_apostrophe : report :=
  mkReport ["it's"] [[VString "it's"]] "it's" "cap.pcap".

(** A report whose title is a place marker. *)
Definition report_marker : report :=
  mkReport ["Name"] [] "%1" "cap.pcap".

(** A report whose title holds percent signs and the place marker [%3],
    but no marker numbered 2 or less. *)
Definition report_percent : report :=
  mkReport ["Name"; "Count"] [[VString "alice"; VInt 3]] "a%3b at 100%" "cap.pcap".

(** A report whose first header label holds a zero character. *)
Definition report_zero : report :=
  mkReport ["a" +:+ str1 Ascii.zero +:+ "b"; "c"] [] "Zero" "cap.pcap".

(** Two creators for the examples of the registry: the application types
    are the unit type, and a creator makes the report of its key. *)
Definition creator_first (_ : unit) (key arg : string) (_ : unit) : report :=
  mkReport [key] [] "first" arg.

Definition creator_second (_ : unit) (key arg : string) (_ : unit) : report :=
  mkReport [key] [] "second" arg.

Section Dialog.

Context {double QTreeWidgetItem : Type}.

(** [QVariant(double).toString()] and [QString::number(d, 'f', 6)]. *)
Context (doubleToString numberF6 : double -> string).

(** The types of the application that the registry only passes on. *)
Context {QWidget CaptureFile register_stat_group_t stat_tap_init_cb : Type}.

Abbreviation QVariant := (QVariant double).
Abbreviation QTreeWidget := (QTreeWidget QTreeWidgetItem).
Abbreviation TapParameterDialog := (TapParameterDialog double QTreeWidgetItem).

(** ** The registry of dialog creators *)

(** [tpdCreator]: the creator gets the parent widget, the key, the
    argument (the filter) and the capture file. *)
Definition tpdCreator : Type := QWidget -> string -> string -> CaptureFile -> TapParameterDialog.

(** What a [const char *] has behind it: a C string, or nothing that may
    be read any more, when the byte array it pointed into is destroyed. *)
Inductive char_ptr :=
| points_to (s : string)
| dangling.

Record stat_tap_ui := {
  group : register_stat_group_t;
  title : char_ptr;
  cli_string : char_ptr;
  tap_init_cb : stat_tap_init_cb;
  nparams : Z
}.

(** The menu action of a dialog: its text and its data. *)
Record QAction := {
  text : string;
  data : string
}.

(** The state that [registerDialog] works on: the static hash
    [cfg_str_to_creator_], and the calls made to [register_stat_tap_ui]
    and to [addStatisticsGroupItem], in order. *)
Record Registry := {
  cfg_str_to_creator_ : gmap string tpdCreator;
  stat_tap_uis : list stat_tap_ui;
  statisticsGroupItems : list (register_stat_group_t * QAction)
}.

Definition emptyRegistry : Registry :=
  {| cfg_str_to_creator_ := ∅; stat_tap_uis := []; statisticsGroupItems := [] |}.

(** [QHash::contains]. *)
Definition QHash_contains (h : gmap string tpdCreator) (key : string) : bool :=
  bool_decide (is_Some (h !! key)).

(** [ui_info.title] is set to [title.toUtf8().constData()]: the byte
    array is a temporary, destroyed at the end of the assignment, before
    [register_stat_tap_ui] is called.  [cfg_abbr] is the C string that the
    caller passed. *)
Definition registerDialog (title : string) (cfg_abbr : string)
    (group : register_stat_group_t) (tap_init_cb : stat_tap_init_cb)
    (creator : tpdCreator) (reg : Registry) : Registry :=
  let ui_info :=
    {| group := group; title := dangling; cli_string := points_to cfg_abbr;
       tap_init_cb := tap_init_cb; nparams := 0 |} in
  let cfg_str := cfg_abbr in
  let tpd_action := {| text := title; data := cfg_str |} in
  {| cfg_str_to_creator_ := <[cfg_str := creator]> (cfg_str_to_creator_ reg);
     stat_tap_uis := stat_tap_uis reg ++ [ui_info];
     statisticsGroupItems := statisticsGroupItems reg ++ [(group, tpd_action)] |}.

(** [showTapParameterStatistics]: [None] is the null pointer. *)
Definition showTapParameterStatistics (reg : Registry) (parent : QWidget)
    (cf : CaptureFile) (cfg_str : string) (arg : string) : option TapParameterDialog :=
  if QHash_contains (cfg_str_to_creator_ reg) cfg_str then
    creator ← cfg_str_to_creator_ reg !! cfg_str;
    Some (creator parent cfg_str arg cf)
  else None.

(** The arguments of one call of [registerDialog], and a run of calls. *)
Record registration := {
  r_title : string;
  r_cfg_abbr : string;
  r_group : register_stat_group_t;
  r_tap_init_cb : stat_tap_init_cb;
  r_creator : tpdCreator
}.

Definition registerOne (reg : Registry) (r : registration) : Registry :=
  registerDialog (r_title r) (r_cfg_abbr r) (r_group r) (r_tap_init_cb r) (r_creator r) reg.

Definition registerAll (rs : list registration) (reg : Registry) : Registry :=
  fold_left registerOne rs reg.

(** ** The serializer *)

Definition columnCount (tw : QTreeWidget) : nat := length (headerLabels tw).

(** [headerItem()->text(col)]: the empty string past the last column. *)
Definition headerText (tw : QTreeWidget) (col : nat) : string :=
  default "" (headerLabels tw !! col).

(** [var.type() == QVariant::String]. *)
Definition isString (var : QVariant) : bool :=
  match var with
  | VString _ => true
  | _ => false
  end.

(** [QVariant::toString()]. *)
Definition toString (var : QVariant) : string :=
  match var with
  | VString s => s
  | VInt n => NilZero.string_of_int (Z.to_int n)
  | VUInt n => NilZero.string_of_uint (N.to_uint n)
  | VDouble d => doubleToString d
  | VOther text => text
  end.

(** The base class implementation of the virtual [treeItemData]. *)
Definition treeItemData_base (_ : QTreeWidgetItem) : list QVariant := [].

(** *** [itemDataToPlain] *)
Definition itemDataToPlain (var : QVariant) (width : Z) : string :=
  let align_mul := match var with VString _ => -1 | _ => 1 end in
  let plain_str :=
    match var with
    | VString _ | VInt _ | VUInt _ => toString var
    | VDouble d => numberF6 d
    | VOther _ => ""
    end in
  if QString.length plain_str <? width
  then arg "%1" plain_str (width * align_mul)
  else plain_str.

(** Modelled from the spec: the default value of the [width] argument of
    [itemDataToPlain], declared in [tap_parameter_dialog.h], which is not
    among the sources.  The width pass calls [itemDataToPlain(var)] and,
    after the spec, measures the cell text itself. *)
Definition itemDataToPlain_default_width : Z := 0.

Definition plain_sep_ : string := "  ".

(** *** The width pass of the plain format

    The body of [foreach (QVariant var, tid)] with its counter [col],
    then the loop over the items. *)
Fixpoint widthCells (tw : QTreeWidget) (tid : list QVariant) (col : nat)
    (col_widths : list Z) : option (list Z) :=
  match tid with
  | [] => Some col_widths
  | var :: rest =>
    let col_widths1 :=
      if (length col_widths <=? col)%nat
      then col_widths ++ [QString.length (headerText tw col)]
      else col_widths in
    col_widths2 ←
      (if isString var then
         w ← col_widths1 !! col;
         Some (<[col := Z.max w
                   (QString.length (itemDataToPlain var itemDataToPlain_default_width))]>
                 col_widths1)
       else Some col_widths1);
    widthCells tw rest (S col) col_widths2
  end.

Fixpoint widthPass (dlg : TapParameterDialog) (items : list QTreeWidgetItem)
    (col_widths : list Z) : option (list Z) :=
  match items with
  | [] => Some col_widths
  | it :: rest =>
    col_widths' ← widthCells (statsTreeWidget dlg) (treeItemData dlg it) 0 col_widths;
    widthPass dlg rest col_widths'
  end.

(** [for (col = 0; col < columnCount() && col < col_widths.length(); col++)]. *)
Definition plainHeaderParts (tw : QTreeWidget) (col_widths : list Z) : list string :=
  map (headerText tw) (seq 0 (Nat.min (columnCount tw) (length col_widths))).

(** *** Title and header

    The state after the first [switch]: the bytes so far, the column
    widths and the footer. *)
Definition eol : string := str1 LF.
Definition quoted_template : string := str1 DQUOTE +:+ "%1" +:+ str1 DQUOTE.
Definition entry_template : string := "  <entry>%1</entry>" +:+ eol.

Definition xmlHeaderEntries (tw : QTreeWidget) : string :=
  fold_left (fun ba col => ba +:+ arg entry_template (toHtmlEscaped (headerText tw col)) 0)
    (seq 0 (columnCount tw)) "".

(** Every part is appended as a byte array or as a [QString], whole,
    but for the header row of the CSV format: that one is appended as
    [csv_header.toUtf8().constData()], a C string, which ends before the
    first zero character. *)
Definition header (dlg : TapParameterDialog) (format : st_format_type)
    : option (string * list Z * string) :=
  let tw := statsTreeWidget dlg in
  match format with
  | ST_FORMAT_PLAIN =>
    col_widths ← widthPass dlg (visibleItems tw) [];
    let plain_header := join plain_sep_ (plainHeaderParts tw col_widths) in
    let top_separator := fill "=" (QString.length plain_header) +:+ eol in
    let file_header :=
      multiArg ("%1 - %2:" +:+ eol) [windowSubtitle dlg; fileName dlg] in
    let footer := fill "-" (QString.length plain_header) +:+ eol in
    let plain_header := plain_header +:+ eol in
    Some (top_separator +:+ file_header +:+ plain_header +:+ footer,
          col_widths, footer)
  | ST_FORMAT_CSV =>
    let ch_parts :=
      map (fun col => arg quoted_template (headerText tw col) 0)
        (seq 0 (columnCount tw)) in
    let csv_header := join "," ch_parts +:+ eol in
    Some (cString csv_header, [], "")
  | ST_FORMAT_XML =>
    let title := toHtmlEscaped (windowSubtitle dlg) in
    let xml_header := arg ("<table>" +:+ eol +:+ "<title>%1</title>" +:+ eol) title 0 in
    Some ((("<?xml version=" +:+ str1 DQUOTE +:+ "1.0" +:+ str1 DQUOTE
             +:+ " encoding=" +:+ str1 DQUOTE +:+ "UTF-8" +:+ str1 DQUOTE +:+ "?>" +:+ eol)
           +:+ xml_header
           +:+ ("<thead>" +:+ eol +:+ "<row>" +:+ eol)
           +:+ xmlHeaderEntries tw
           +:+ ("</row>" +:+ eol +:+ "</thead>" +:+ eol)
           +:+ ("<tbody>" +:+ eol)),
          [], "</tbody>" +:+ eol +:+ "</table>" +:+ eol)
  | ST_FORMAT_YAML =>
    let yaml_header :=
      arg (arg ("Description: " +:+ quoted_template +:+ eol
                +:+ "File: " +:+ str1 DQUOTE +:+ "%2" +:+ str1 DQUOTE +:+ eol
                +:+ "Items:" +:+ eol)
             (windowSubtitle dlg) 0)
          (fileName dlg) 0 in
    Some (("---" +:+ eol) +:+ yaml_header, [], "")
  end.

(** *** One data line *)
Fixpoint plainParts (col_widths : list Z) (tid : list QVariant) (i : nat)
    : option (list string) :=
  match tid with
  | [] => Some []
  | var :: rest =>
    width ← col_widths !! i;
    parts ← plainParts col_widths rest (S i);
    Some (itemDataToPlain var width :: parts)
  end.

Definition csvField (var : QVariant) : string :=
  if isString var then arg quoted_template (toString var) 0 else toString var.

Definition xmlEntry (var : QVariant) : string :=
  arg entry_template (toHtmlEscaped (toString var)) 0.

(** The body of the YAML [foreach]: the state is the line, the indent
    and the column counter. *)
Definition yamlCell (tw : QTreeWidget) (st : string * string * nat) (var : QVariant)
    : string * string * nat :=
  let '(line, indent, col) := st in
  let entry := if isString var then arg quoted_template (toString var) 0
               else toString var in
  (line +:+ multiArg (arg ("  %1 %2: %3" +:+ eol) indent 0) [headerText tw col; entry],
   " ", S col).

Definition dataLine (tw : QTreeWidget) (format : st_format_type)
    (col_widths : list Z) (tid : list QVariant) : option string :=
  match format with
  | ST_FORMAT_PLAIN =>
    parts ← plainParts col_widths tid 0;
    Some (join plain_sep_ parts +:+ eol)
  | ST_FORMAT_CSV => Some (join "," (map csvField tid) +:+ eol)
  | ST_FORMAT_XML =>
    Some (fold_left (fun line var => line +:+ xmlEntry var) tid ("<row>" +:+ eol)
          +:+ ("</row>" +:+ eol))
  | ST_FORMAT_YAML => Some (fold_left (yamlCell tw) tid ("", "-", 0%nat)).1.1
  end.

(** *** The data loop and the footer *)
Fixpoint dataLoop (dlg : TapParameterDialog) (format : st_format_type)
    (col_widths : list Z) (items : list QTreeWidgetItem) (ba : string)
    : option string :=
  match items with
  | [] => Some ba
  | it :: rest =>
    let tid := treeItemData dlg it in
    if (length tid <? 1)%nat then dataLoop dlg format col_widths rest ba
    else
      line ← dataLine (statsTreeWidget dlg) format col_widths tid;
      dataLoop dlg format col_widths rest (ba +:+ line)
  end.

Definition getTreeAsString (dlg : TapParameterDialog) (format : st_format_type)
    : option string :=
  '(ba, col_widths, footer) ← header dlg format;
  ba' ← dataLoop dlg format col_widths (visibleItems (statsTreeWidget dlg)) ba;
  Some (ba' +:+ footer).

(** ** Copy and save *)

(** The calls that the slots make to the C library and to the
    application, in order. *)
Inductive call :=
| ws_fopen (file_name mode : string)
| fputs (s : string)
| fclose
| QMessageBox_warning (title : string) (last_errno : Z)
| clipboard_setText (text : string)
| helpTopicAction (topic : Z).

(** What the file dialog gave: the result of [exec()], the selected name
    filter and the selected files. *)
Record QFileDialog := {
  exec : bool;
  selectedNameFilter : string;
  selectedFiles : list string
}.

(** What the C library will answer: whether [ws_fopen] gives a file and
    whether [fputs] gives something else than [EOF], each with the value
    of [errno] after the call. *)
Record Answers := {
  fopen_gives_file : bool;
  errno_after_fopen : Z;
  fputs_succeeds : bool;
  errno_after_fputs : Z
}.

(** The name filters that [on_actionSaveAs_triggered] sets, one for each
    format; the first one is the filter selected at the start. *)
Definition nameFilterOf (format : st_format_type) : string :=
  match format with
  | ST_FORMAT_PLAIN => "Plain text file (*.txt)"
  | ST_FORMAT_CSV => "Comma separated values (*.csv)"
  | ST_FORMAT_XML => "XML document (*.xml)"
  | ST_FORMAT_YAML => "YAML document (*.yaml)"
  end.

(** The chain of tests on the selected filter: the format and its file
    extension. *)
Definition selectFormat (selectedFilter : string) : st_format_type * string :=
  if containsCI selectedFilter "*.yaml" then (ST_FORMAT_YAML, ".yaml")
  else if containsCI selectedFilter "*.xml" then (ST_FORMAT_XML, ".xml")
  else if containsCI selectedFilter "*.csv" then (ST_FORMAT_CSV, ".csv")
  else (ST_FORMAT_PLAIN, ".txt").

(** Get selected filename and add extension if necessary. *)
Definition withExtension (file_name file_ext : string) : string :=
  if negb (endsWithCI file_name file_ext) then file_name +:+ file_ext else file_name.

(** [on_actionSaveAs_triggered], as the calls it makes.  [selectedFiles()[0]]
    is an indexed access and [getTreeAsString] can fail in the model, so
    the result is an [option]. *)
Definition on_actionSaveAs_triggered (dlg : TapParameterDialog)
    (SaveAsDialog : QFileDialog) (libc : Answers) : option (list call) :=
  if negb (exec SaveAsDialog) then Some []
  else
    let '(format, file_ext) := selectFormat (selectedNameFilter SaveAsDialog) in
    file_name ← selectedFiles SaveAsDialog !! 0%nat;
    let file_name := withExtension file_name file_ext in
    tree_as_ba ← getTreeAsString dlg format;
    let opened := [ws_fopen file_name "w"] in
    let '(calls, success, last_errno) :=
      if fopen_gives_file libc then
        (opened ++ [fputs (cString tree_as_ba); fclose],
         fputs_succeeds libc, errno_after_fputs libc)
      else (opened, false, errno_after_fopen libc) in
    Some (if negb success
          then calls ++ [QMessageBox_warning (arg "Error saving file %1" file_name 0)
                           last_errno]
          else calls).

(** [on_actionCopyToClipboard_triggered]: the byte array becomes the
    [QString] that [setText] takes. *)
Definition on_actionCopyToClipboard_triggered (dlg : TapParameterDialog)
    : option (list call) :=
  tree_as_ba ← getTreeAsString dlg ST_FORMAT_PLAIN;
  Some [clipboard_setText (cString tree_as_ba)].

(** ** The widgets and the filter actions *)

(** A 32 bit [int]: the product wraps around, the quotient is truncated
    towards zero. *)
Definition wrap32 (z : Z) : Z := (z + 2 ^ 31) mod 2 ^ 32 - 2 ^ 31.
Definition int_mul (a b : Z) : Z := wrap32 (a * b).
Definition int_div (a b : Z) : Z := Z.quot a b.

(** What the constructor sets up: the size of the dialog, the actions of
    the context menu, the buttons it adds with their slots, and whether
    it hides the help button. *)
Record Widgets := {
  dialog_size : Z * Z;
  ctx_menu_ : list string;
  added_buttons : list (string * string);
  help_button_hidden : bool
}.

Definition newTapParameterDialog (parent_width parent_height help_topic : Z) : Widgets :=
  {| dialog_size := (int_div (int_mul parent_width 2) 3,
                     int_div (int_mul parent_height 3) 4);
     ctx_menu_ := ["actionCopyToClipboard"; "actionSaveAs"];
     added_buttons := [("Copy", "on_actionCopyToClipboard_triggered");
                       ("Save as...", "on_actionSaveAs_triggered")];
     help_button_hidden := help_topic <? 1 |}.

Definition on_buttonBox_helpRequested (help_topic : Z) : list call :=
  if 0 <? help_topic then [helpTopicAction help_topic] else [].

(** A filter action with what it carries, and the signal [filterAction]. *)
Context {Action ActionType : Type}.

Record FilterAction := {
  action : Action;
  actionType : ActionType
}.

Inductive signal :=
| filterAction (filter_expr : string) (a : Action) (t : ActionType).

(** [filterActionTriggered]: the sender as a [FilterAction], if it is
    one, and the value of the virtual [filterExpression()]. *)
Definition filterActionTriggered (fa : option FilterAction) (filter_expr : string)
    : list signal :=
  match fa with
  | None => []
  | Some fa =>
    if isEmpty filter_expr then []
    else [filterAction filter_expr (action fa) (actionType fa)]
  end.

(** [contextMenuEvent]: the enabled state that each filter action gets. *)
Definition contextMenuEvent {QAction_ : Type} (filter_actions_ : list QAction_)
    (filter_expr : string) : list (QAction_ * bool) :=
  let enable := 0 <? QString.length filter_expr in
  map (fun fa => (fa, enable)) filter_actions_.

(** ** The display filter and the refill of the tree *)

(** The part of the user interface that the filter slots read and write:
    the text of the display filter line and whether the line and the
    apply button are enabled. *)
Record Ui := {
  displayFilterText : string;
  displayFilterEnabled : bool;
  applyFilterEnabled : bool
}.

(** What the slots emit and call: the signal [updateFilter] and the
    virtual [fillTree]. *)
Inductive emitted :=
| updateFilter (filter : string) (force : bool)
| fillTree.

Definition setDisplayFilter (filter : string) (ui : Ui) : Ui :=
  {| displayFilterText := filter;
     displayFilterEnabled := displayFilterEnabled ui;
     applyFilterEnabled := applyFilterEnabled ui |}.

Definition showEvent (ui : Ui) : list emitted :=
  (if negb (isEmpty (displayFilterText ui))
   then [updateFilter (displayFilterText ui) true] else [])
  ++ [fillTree].

Definition on_applyFilterButton_clicked (ui : Ui) : list emitted :=
  [updateFilter (displayFilterText ui) true; fillTree].

Definition updateWidgets (file_closed_ : bool) (ui : Ui) : Ui :=
  if file_closed_
  then {| displayFilterText := displayFilterText ui;
          displayFilterEnabled := false;
          applyFilterEnabled := false |}
  else ui.

(** The events that reach these slots, and a run of events from a state
    of the interface: the state after the run and what was emitted. *)
Inductive event :=
| SetDisplayFilter (filter : string)
| ShowEvent
| ApplyFilterClicked
| UpdateWidgets (file_closed_ : bool).

Definition step (ui : Ui) (e : event) : Ui * list emitted :=
  match e with
  | SetDisplayFilter filter => (setDisplayFilter filter ui, [])
  | ShowEvent => (ui, showEvent ui)
  | ApplyFilterClicked => (ui, on_applyFilterButton_clicked ui)
  | UpdateWidgets file_closed_ => (updateWidgets file_closed_ ui, [])
  end.

Fixpoint run (ui : Ui) (events : list event) : Ui * list emitted :=
  match events with
  | [] => (ui, [])
  | e :: rest =>
    let '(ui1, out1) := step ui e in
    let '(ui2, out2) := run ui1 rest in
    (ui2, out1 ++ out2)
  end.

(** * Reference definitions

    What the properties below are stated with. *)

Implicit Types (tw : QTreeWidget) (dlg : TapParameterDialog).
Implicit Types (var : QVariant) (tid : list QVariant) (rows : list (list QVariant)).
Implicit Types (col_widths cw : list Z) (i col : nat).

(** The rows of a dialog: the cells of its visible items, in order. *)
Definition rowsOf dlg : list (list QVariant) :=
  map (treeItemData dlg) (visibleItems (statsTreeWidget dlg)).

(** The largest number of cells of a row. *)
Definition maxCells rows : nat := foldr (fun tid n => Nat.max (length tid) n) 0%nat rows.

(** The length of the text of the cell at position [i] of a row, when
    the row has such a cell and it is a string. *)
Definition stringLengthAt i tid : option Z :=
  match tid !! i with
  | Some (VString s) => Some (QString.length s)
  | _ => None
  end.

(** The width of column [i] after the spec: the length of the header
    label, raised in turn by each string cell at position [i]. *)
Definition widthAt tw i rows : Z :=
  fold_left Z.max (omap (stringLengthAt i) rows) (QString.length (headerText tw i)).

(** The widths of the columns that some row reaches. *)
Definition specWidths tw rows : list Z :=
  map (fun i => widthAt tw i rows) (seq 0 (maxCells rows)).

(** The width of column [i] at a point of the width pass: its entry in
    the list, and the length of its header label, the value that the
    entry starts with, as long as the pass has made no entry for it. *)
Definition columnWidth tw col_widths i : Z :=
  default (QString.length (headerText tw i)) (col_widths !! i).

(** What one cell does to the width of its column. *)
Definition raise var (w : Z) : Z :=
  if isString var then Z.max w (QString.length (toString var)) else w.

(** A row takes part in the output when it has a cell. *)
Definition hasCells tid : bool :=
  match tid with
  | [] => false
  | _ :: _ => true
  end.

(** The rows that give a line of output. *)
Definition dataRows dlg : list (list QVariant) := List.filter hasCells (rowsOf dlg).

(** The text that [itemDataToPlain] aligns. *)
Definition plainText var : string :=
  match var with
  | VDouble d => numberF6 d
  | VOther _ => ""
  | _ => toString var
  end.

(** [n] spaces, none when [n] is negative. *)
Definition spaces (n : Z) : string := fill " " n.

(** Left-aligned: the text, then spaces up to the width.  Right-aligned:
    the spaces first.  A text that is as long as the width or longer is
    left as it is. *)
Definition leftAligned (text : string) (width : Z) : string :=
  text +:+ spaces (width - QString.length text).

Definition rightAligned (text : string) (width : Z) : string :=
  spaces (width - QString.length text) +:+ text.

(** A cell in the width of its column. *)
Definition alignedCell var (width : Z) : string :=
  if isString var then leftAligned (plainText var) width
  else rightAligned (plainText var) width.

(** A line of the plain format. *)
Definition plainRow col_widths tid : string :=
  join "  " (zip_with alignedCell tid col_widths) +:+ eol.

(** A text between double quotes, copied as it is. *)
Definition quoted (s : string) : string := str1 DQUOTE +:+ s +:+ str1 DQUOTE.

(** A field and a line of the CSV format. *)
Definition csvCell var : string :=
  if isString var then quoted (toString var)
  else toString var.

Definition csvRow tid : string := join "," (map csvCell tid) +:+ eol.

(** The fields of a line, cut at every separator. *)
Fixpoint splitOn (sep : ascii) (s : string) : list string :=
  match s with
  | EmptyString => [""]
  | String a rest =>
    if Stdlib.Strings.Ascii.eqb a sep then "" :: splitOn sep rest
    else match splitOn sep rest with
         | [] => [str1 a]
         | field :: fields => String a field :: fields
         end
  end.




(** The first line of the XML format. *)
Definition xmlDeclaration : string :=
  "<?xml version=" +:+ quoted "1.0" +:+ " encoding=" +:+ quoted "UTF-8" +:+ "?>" +:+ eol.

(** An [entry] element with its text escaped. *)
Definition xmlEntryOf (text : string) : string :=
  "  <entry>" +:+ toHtmlEscaped text +:+ "</entry>" +:+ eol.

(** A [row] element of the body. *)
Definition xmlRow tid : string :=
  ("<row>" +:+ eol)
  +:+ appendAll (map (fun var => xmlEntryOf (toString var)) tid)
  +:+ ("</row>" +:+ eol).

(** A value of the YAML format: a string between double quotes, any
    other type bare. *)
Definition yamlValue var : string :=
  if isString var then quoted (toString var) else toString var.

(** The cells after the first one, from column [col] on. *)
Fixpoint yamlNext tw col tid : string :=
  match tid with
  | [] => ""
  | var :: rest =>
    ("    " +:+ headerText tw col +:+ ": " +:+ yamlValue var +:+ eol)
    +:+ yamlNext tw (S col) rest
  end.

(** The lines of a row of the YAML format. *)
Definition yamlRow tw tid : string :=
  match tid with
  | [] => ""
  | var :: rest =>
    ("  - " +:+ headerText tw 0 +:+ ": " +:+ yamlValue var +:+ eol)
    +:+ yamlNext tw 1 rest
  end.

(** The tokens of a text that holds no place marker. *)
Definition textTokens (t : string) : list token :=
  map TText (String.list_ascii_of_string t).

(** A title collides with the template of the YAML header when it holds
    a place marker numbered 2 or less: the second [arg] of the header
    replaces the lowest numbered marker of the text that the first one
    left, and the template has [%2] left. *)
Definition collidingMarker (title : string) : bool :=
  existsb (fun n => (n <=? 2)%nat) (numbers (tokenize title)).

(** The three lines after the dashes of the YAML format. *)
Definition yamlHeader (title file : string) : string :=
  "Description: " +:+ quoted title +:+ eol
  +:+ "File: " +:+ quoted file +:+ eol
  +:+ "Items:" +:+ eol.

(** The items whose row has a cell. *)
Definition cellItems dlg (items : list QTreeWidgetItem) : list QTreeWidgetItem :=
  List.filter (fun it => hasCells (treeItemData dlg it)) items.

(** The dialog with other visible items in its tree. *)
Definition withItems dlg (items : list QTreeWidgetItem) : TapParameterDialog :=
  {| statsTreeWidget :=
       {| headerLabels := headerLabels (statsTreeWidget dlg); visibleItems := items |};
     windowSubtitle := windowSubtitle dlg;
     fileName := fileName dlg;
     treeItemData := treeItemData dlg |}.

(** Two dialogs that differ in the items of their trees at most. *)
Definition sameReport (d1 d2 : TapParameterDialog) : Prop :=
  headerLabels (statsTreeWidget d1) = headerLabels (statsTreeWidget d2)
  /\ windowSubtitle d1 = windowSubtitle d2
  /\ fileName d1 = fileName d2
  /\ treeItemData d1 = treeItemData d2.

(** The rows of the YAML format after the words of the specification:
    the first cell as a dash, a space, the label and the value, every
    later cell with two spaces in front. *)
Fixpoint yamlNext_claimed tw col tid : string :=
  match tid with
  | [] => ""
  | var :: rest =>
    ("  " +:+ headerText tw col +:+ ": " +:+ yamlValue var +:+ eol)
    +:+ yamlNext_claimed tw (S col) rest
  end.

Definition yamlRow_claimed tw tid : string :=
  match tid with
  | [] => ""
  | var :: rest =>
    ("- " +:+ headerText tw 0 +:+ ": " +:+ yamlValue var +:+ eol)
    +:+ yamlNext_claimed tw 1 rest
  end.

Definition yaml_claimed dlg : string :=
  ("---" +:+ eol)
  +:+ yamlHeader (windowSubtitle dlg) (fileName dlg)
  +:+ appendAll (map (yamlRow_claimed (statsTreeWidget dlg)) (dataRows dlg)).

(** The file extension of a format. *)
Definition extensionOf (format : st_format_type) : string :=
  match format with
  | ST_FORMAT_PLAIN => ".txt"
  | ST_FORMAT_CSV => ".csv"
  | ST_FORMAT_XML => ".xml"
  | ST_FORMAT_YAML => ".yaml"
  end.

(** How often a character stands in a text, and how many commas the
    texts of the cells of a row hold. *)
Fixpoint countChar (c : ascii) (s : string) : nat :=
  match s with
  | EmptyString => 0
  | String a rest =>
    (if Stdlib.Strings.Ascii.eqb a c then 1 else 0) + countChar c rest
  end.

Definition commasIn tid : nat :=
  foldr (fun var n => (countChar "," (toString var) + n)%nat) 0%nat tid.

(** Two texts that differ in the case of letters at most. *)
Fixpoint equalCI (s t : string) : bool :=
  match s, t with
  | EmptyString, EmptyString => true
  | String a s', String b t' => eqbCI a b && equalCI s' t'
  | _, _ => false
  end.

(** The events that refill the tree, and the calls of [fillTree]. *)
Definition refills (e : event) : bool :=
  match e with
  | ShowEvent | ApplyFilterClicked => true
  | _ => false
  end.

Definition isFillTree (x : emitted) : bool :=
  match x with
  | fillTree => true
  | _ => false
  end.

(** A text that ends with a line feed. *)
Definition endsWithLF (s : string) : Prop := exists body, s = body +:+ eol.

(** * Properties *)

(** ** Strings *)

Lemma append_cons (c : ascii) (s t : string) : String c s +:+ t = String c (s +:+ t).
Proof. reflexivity. Qed.

Lemma append_nil_l (t : string) : "" +:+ t = t.
Proof. reflexivity. Qed.

Lemma append_nil_r (s : string) : s +:+ "" = s.
Proof. induction s as [|c s IH]; [done | by rewrite append_cons, IH]. Qed.

Lemma append_assoc (s1 s2 s3 : string) : (s1 +:+ s2) +:+ s3 = s1 +:+ (s2 +:+ s3).
Proof. induction s1 as [|c s1 IH]; [done | by rewrite !append_cons, IH]. Qed.

Lemma length_append (s1 s2 : string) :
  QString.length (s1 +:+ s2) = QString.length s1 + QString.length s2.
Proof.
  unfold QString.length.
  induction s1 as [|c s1 IH]; [done |].
  rewrite append_cons. cbn [String.length]. lia.
Qed.

Lemma length_nonneg (s : string) : 0 <= QString.length s.
Proof. unfold QString.length. lia. Qed.

Lemma length_copies (ch : ascii) (n : nat) : String.length (copies ch n) = n.
Proof. induction n as [|n IH]; simpl; [done | by rewrite IH]. Qed.

Lemma length_fill (ch : ascii) (size : Z) :
  0 <= size -> QString.length (fill ch size) = size.
Proof. intros H. unfold fill, QString.length. rewrite length_copies. lia. Qed.

(** ** The templates of the serializer

    The templates are literals, so [arg] and [multiArg] reduce on them to
    plain concatenations whatever the inserted text is. *)

Lemma pad_zero (a : string) : pad a 0 = a.
Proof. unfold pad. cbn [Z.ltb Z.compare]. by rewrite append_nil_l, append_nil_r. Qed.

Ltac template raw :=
  transitivity raw; [reflexivity | rewrite ?pad_zero, ?append_nil_r; reflexivity].

Lemma arg_quoted (t : string) :
  arg quoted_template t 0 = str1 DQUOTE +:+ t +:+ str1 DQUOTE.
Proof. template (str1 DQUOTE +:+ pad t 0 +:+ str1 DQUOTE +:+ ""). Qed.

Lemma arg_entry (e : string) :
  arg entry_template e 0 = "  <entry>" +:+ e +:+ "</entry>" +:+ eol.
Proof. template ("  <entry>" +:+ pad e 0 +:+ "</entry>" +:+ eol). Qed.

Lemma arg_percent_1 (a : string) (fieldWidth : Z) :
  arg "%1" a fieldWidth = pad a fieldWidth.
Proof. template (pad a fieldWidth +:+ ""). Qed.

Lemma arg_xml_title (t : string) :
  arg ("<table>" +:+ eol +:+ "<title>%1</title>" +:+ eol) t 0
  = "<table>" +:+ eol +:+ "<title>" +:+ t +:+ "</title>" +:+ eol.
Proof. template ("<table>" +:+ eol +:+ "<title>" +:+ pad t 0 +:+ "</title>" +:+ eol). Qed.

Lemma multiArg_file_header (a b : string) :
  multiArg ("%1 - %2:" +:+ eol) [a; b] = a +:+ " - " +:+ b +:+ ":" +:+ eol.
Proof. reflexivity. Qed.

Lemma multiArg_yaml_first (label entry : string) :
  multiArg (arg ("  %1 %2: %3" +:+ eol) "-" 0) [label; entry]
  = "  - " +:+ label +:+ ": " +:+ entry +:+ eol.
Proof. reflexivity. Qed.

Lemma multiArg_yaml_next (label entry : string) :
  multiArg (arg ("  %1 %2: %3" +:+ eol) " " 0) [label; entry]
  = "    " +:+ label +:+ ": " +:+ entry +:+ eol.
Proof. reflexivity. Qed.

(** ** The width pass *)

Lemma itemDataToPlain_string (s : string) :
  itemDataToPlain (VString s) itemDataToPlain_default_width = s.
Proof.
  unfold itemDataToPlain, itemDataToPlain_default_width. cbn [toString].
  destruct (QString.length s <? 0) eqn:E; [|done].
  apply Z.ltb_lt in E. pose proof (length_nonneg s). lia.
Qed.

Lemma maxCells_app rows1 rows2 :
  maxCells (rows1 ++ rows2) = Nat.max (maxCells rows1) (maxCells rows2).
Proof. induction rows1 as [|tid rows1 IH]; simpl; [done | rewrite IH; lia]. Qed.

Lemma maxCells_ge rows tid : tid ∈ rows -> (length tid <= maxCells rows)%nat.
Proof. induction 1; simpl; lia. Qed.

Lemma stringLengths_beyond i rows :
  (maxCells rows <= i)%nat -> omap (stringLengthAt i) rows = [].
Proof.
  induction rows as [|tid rows IH]; simpl; [done |]. intros H.
  unfold stringLengthAt at 1.
  rewrite (lookup_ge_None_2 tid i) by lia. apply IH. lia.
Qed.

Lemma widthAt_beyond tw i rows :
  (maxCells rows <= i)%nat -> widthAt tw i rows = QString.length (headerText tw i).
Proof. intros H. unfold widthAt. by rewrite stringLengths_beyond. Qed.

Lemma widthAt_snoc tw i rows tid :
  widthAt tw i (rows ++ [tid])
  = match tid !! i with
    | Some var => raise var (widthAt tw i rows)
    | None => widthAt tw i rows
    end.
Proof.
  unfold widthAt. rewrite omap_app, fold_left_app.
  assert (omap (stringLengthAt i) [tid]
          = match stringLengthAt i tid with Some y => [y] | None => [] end) as ->
    by (cbn; by destruct (stringLengthAt i tid)).
  unfold stringLengthAt, raise.
  destruct (tid !! i) as [[s|n|n|d|t]|]; done.
Qed.

Lemma specWidths_lookup tw rows i :
  specWidths tw rows !! i
  = if decide (i < maxCells rows)%nat then Some (widthAt tw i rows) else None.
Proof.
  unfold specWidths. rewrite list_lookup_fmap.
  case_decide.
  - by rewrite lookup_seq_lt.
  - rewrite lookup_seq_ge by lia. done.
Qed.

Lemma length_specWidths tw rows : length (specWidths tw rows) = maxCells rows.
Proof. unfold specWidths. by rewrite length_map, length_seq. Qed.

(** The inner loop, started at column [col] on a list that has at least
    [col] widths. *)
Lemma widthCells_spec tw tid : forall col cw,
  (col <= length cw)%nat ->
  exists cw',
    widthCells tw tid col cw = Some cw'
    /\ length cw' = Nat.max (length cw) (col + length tid)
    /\ forall i,
         cw' !! i
         = if decide (i < col)%nat then cw !! i
           else match tid !! (i - col)%nat with
                | Some var =>
                  Some (raise var (default (QString.length (headerText tw i)) (cw !! i)))
                | None => cw !! i
                end.
Proof.
  induction tid as [|var rest IH]; intros col cw Hcol.
  - exists cw. split; [done |]. split; [simpl; lia |].
    intros i. case_decide; [done |]. by rewrite lookup_nil.
  - cbn [widthCells].
    set (h := QString.length (headerText tw col)).
    set (cw1 := if (length cw <=? col)%nat then cw ++ [h] else cw).
    assert (Hlen1 : length cw1 = Nat.max (length cw) (S col)).
    { subst cw1. destruct (Nat.leb_spec (length cw) col);
        [rewrite length_app; simpl; lia | lia]. }
    assert (Hat1 : cw1 !! col = Some (default h (cw !! col))).
    { subst cw1. destruct (Nat.leb_spec (length cw) col).
      - assert (length cw = col) as <- by lia.
        rewrite lookup_app_r, Nat.sub_diag by lia.
        by rewrite (lookup_ge_None_2 cw) by lia.
      - destruct (lookup_lt_is_Some_2 cw col) as [w Hw]; [lia |]. by rewrite Hw. }
    assert (Hne1 : forall i, i <> col -> cw1 !! i = cw !! i).
    { intros i Hi. subst cw1. destruct (Nat.leb_spec (length cw) col); [| done].
      destruct (decide (i < length cw)%nat).
      - by rewrite lookup_app_l.
      - rewrite !lookup_ge_None_2; [done | lia | rewrite length_app; simpl; lia]. }
    set (w0 := default h (cw !! col)) in *.
    assert (exists cw2,
      (if isString var then
         w ← cw1 !! col;
         Some (<[col := Z.max w (QString.length
                 (itemDataToPlain var
                    itemDataToPlain_default_width))]> cw1)
       else Some cw1) = Some cw2
      /\ length cw2 = length cw1
      /\ cw2 !! col = Some (raise var w0)
      /\ forall i, i <> col -> cw2 !! i = cw !! i) as (cw2 & -> & Hlen2 & Hat2 & Hne2).
    { unfold raise. destruct var as [s|n|n|d|t]; cbn [isString];
        try (exists cw1; by eauto).
      rewrite Hat1. cbn [mbind option_bind].
      eexists. split; [reflexivity |].
      rewrite itemDataToPlain_string. cbn [toString].
      split; [by rewrite length_insert |].
      split; [apply list_lookup_insert_eq; lia |].
      intros i Hi. rewrite list_lookup_insert_ne by done. by apply Hne1. }
    cbn [mbind option_bind].
    destruct (IH (S col) cw2) as (cw' & Hrun & Hlen & Hlook); [lia |].
    exists cw'. split; [done |]. split; [simpl; lia |].
    intros i. rewrite Hlook. clear Hlook Hrun.
    destruct (decide (i < col)%nat), (decide (i < S col)%nat); try lia.
    + apply Hne2. lia.
    + assert (i = col) as -> by lia. rewrite Nat.sub_diag. done.
    + replace (i - col)%nat with (S (i - S col)) by lia. cbn [lookup list_lookup].
      rewrite Hne2 by lia. done.
Qed.

(** One row more. *)
Lemma widthCells_row tw rows tid :
  widthCells tw tid 0 (specWidths tw rows)
  = Some (specWidths tw (rows ++ [tid])).
Proof.
  destruct (widthCells_spec tw tid 0 (specWidths tw rows)) as (cw' & -> & Hlen & Hlook);
    [lia |].
  f_equal. apply list_eq. intros i.
  rewrite Hlook, !specWidths_lookup, Nat.sub_0_r, maxCells_app, widthAt_snoc.
  cbn [maxCells foldr]. rewrite Nat.max_0_r.
  destruct (decide (i < 0)%nat); [lia |].
  destruct (tid !! i) as [var|] eqn:Hi.
  - apply lookup_lt_Some in Hi.
    rewrite (decide_True (P := (i < Nat.max _ _)%nat)) by lia.
    case_decide; [done |]. cbn [default]. by rewrite widthAt_beyond by lia.
  - apply lookup_ge_None in Hi.
    repeat case_decide; try done; lia.
Qed.

Lemma widthPass_from dlg items : forall rows,
  widthPass dlg items (specWidths (statsTreeWidget dlg) rows)
  = Some (specWidths (statsTreeWidget dlg) (rows ++ map (treeItemData dlg) items)).
Proof.
  induction items as [|it items IH]; intros rows; cbn [widthPass map].
  - by rewrite app_nil_r.
  - rewrite widthCells_row. cbn [mbind option_bind].
    rewrite IH, <- app_assoc. done.
Qed.

Lemma widthPass_spec dlg :
  widthPass dlg (visibleItems (statsTreeWidget dlg)) []
  = Some (specWidths (statsTreeWidget dlg) (rowsOf dlg)).
Proof. apply (widthPass_from dlg _ []). Qed.

Lemma fold_left_max_le (l : list Z) (a : Z) : a <= fold_left Z.max l a.
Proof.
  revert a. induction l as [|x l IH]; intros a; cbn [fold_left]; [lia |].
  specialize (IH (Z.max a x)). lia.
Qed.

Lemma widthAt_app_le tw i rows1 rows2 :
  widthAt tw i rows1 <= widthAt tw i (rows1 ++ rows2).
Proof. unfold widthAt. rewrite omap_app, fold_left_app. apply fold_left_max_le. Qed.

Lemma stringLengths_numeric i rows :
  (forall tid var, tid ∈ rows -> tid !! i = Some var -> isString var = false) ->
  omap (stringLengthAt i) rows = [].
Proof.
  induction rows as [|tid rows IH]; intros H; [done |].
  cbn [omap list_omap]. fold (omap (stringLengthAt i) rows).
  rewrite IH by (intros ????; eapply H; [by apply list_elem_of_further | done]).
  unfold stringLengthAt.
  destruct (tid !! i) as [[s|n|n|d|t]|] eqn:E; try done.
  specialize (H tid (VString s) (list_elem_of_here _ _) E). done.
Qed.

(** C1.  The width pass of the plain format always ends.  It makes the
    entry of a column when the first cell at its position is read, with
    the length of the header label as its first value, so the list ends
    at the largest cell count of a row.  For every column [i] the width is
    the length of header label [i] raised, row after row, to the length of
    each string cell at position [i]; cells of any other type leave every
    width as it is, so a column without string cells keeps the length of
    its header label whatever the digits of its numbers; and the widths
    never decrease as more rows are read. *)
Theorem plain_column_widths dlg :
  let tw := statsTreeWidget dlg in
  exists col_widths,
    widthPass dlg (visibleItems tw) [] = Some col_widths
    /\ length col_widths = maxCells (rowsOf dlg)
    /\ (forall i,
          columnWidth tw col_widths i
          = fold_left Z.max (omap (stringLengthAt i) (rowsOf dlg))
              (QString.length (headerText tw i)))
    /\ (forall i,
          (forall tid var, tid ∈ rowsOf dlg -> tid !! i = Some var -> isString var = false) ->
          columnWidth tw col_widths i = QString.length (headerText tw i))
    /\ (forall items1 items2 cw1 i,
          visibleItems tw = items1 ++ items2 ->
          widthPass dlg items1 [] = Some cw1 ->
          columnWidth tw cw1 i <= columnWidth tw col_widths i).
Proof.
  intros tw. exists (specWidths tw (rowsOf dlg)).
  split; [apply widthPass_spec |].
  split; [apply length_specWidths |].
  assert (Hw : forall rows i, columnWidth tw (specWidths tw rows) i = widthAt tw i rows).
  { intros rows i. unfold columnWidth. rewrite specWidths_lookup.
    case_decide; [done |]. cbn [default]. by rewrite widthAt_beyond by lia. }
  split; [intros i; apply Hw |].
  split.
  - intros i Hnum. rewrite Hw. unfold widthAt. by rewrite stringLengths_numeric.
  - intros items1 items2 cw1 i Hsplit Hrun.
    pose proof (widthPass_from dlg items1 []) as Hrun'.
    change (specWidths (statsTreeWidget dlg) []) with (@nil Z) in Hrun'.
    rewrite Hrun in Hrun'. injection Hrun' as ->. cbn [app].
    fold tw. rewrite !Hw. unfold rowsOf. fold tw. rewrite Hsplit, map_app.
    apply widthAt_app_le.
Qed.

(** ** The data loop *)

Lemma fold_left_append {A} (f : A -> string) (l : list A) (init : string) :
  fold_left (fun acc x => acc +:+ f x) l init = init +:+ appendAll (map f l).
Proof.
  revert init. induction l as [|x l IH]; intros init; cbn [fold_left map].
  - unfold appendAll. cbn [foldr]. by rewrite append_nil_r.
  - rewrite IH. unfold appendAll. cbn [foldr]. by rewrite append_assoc.
Qed.

Lemma dataLoop_spec dlg format cw (lineOf : list QVariant -> string) items :
  (forall it, it ∈ items -> hasCells (treeItemData dlg it) = true ->
     dataLine (statsTreeWidget dlg) format cw (treeItemData dlg it)
     = Some (lineOf (treeItemData dlg it))) ->
  forall ba,
    dataLoop dlg format cw items ba
    = Some (ba +:+ appendAll
              (map lineOf (List.filter hasCells (map (treeItemData dlg) items)))).
Proof.
  induction items as [|it items IH]; intros Hline ba; cbn [dataLoop map List.filter].
  - unfold appendAll. cbn [map foldr]. by rewrite append_nil_r.
  - assert (Hrest : forall it', it' ∈ items -> hasCells (treeItemData dlg it') = true ->
      dataLine (statsTreeWidget dlg) format cw (treeItemData dlg it')
      = Some (lineOf (treeItemData dlg it'))).
    { intros it' Hin. apply Hline. by apply list_elem_of_further. }
    specialize (Hline it (list_elem_of_here _ _)).
    destruct (treeItemData dlg it) as [|var rest]; cbn [length Nat.ltb Nat.leb hasCells].
    + by apply IH.
    + rewrite Hline by done. cbn [mbind option_bind map].
      rewrite IH by done. unfold appendAll. cbn [foldr]. by rewrite append_assoc.
Qed.

(** *** The plain format *)

Lemma fill_nonpos (ch : ascii) (n : Z) : n <= 0 -> fill ch n = "".
Proof. intros H. unfold fill. by replace (Z.to_nat n) with 0%nat by lia. Qed.

Lemma itemDataToPlain_aligned var (width : Z) :
  itemDataToPlain var width = alignedCell var width.
Proof.
  unfold itemDataToPlain, alignedCell, leftAligned, rightAligned, spaces.
  set (text := plainText var).
  assert (match var with
          | VString _ | VInt _ | VUInt _ => toString var
          | VDouble d => numberF6 d
          | VOther _ => ""
          end = text) as -> by (by destruct var).
  assert (match var with VString _ => -1 | _ => 1 end
          = if isString var then -1 else 1) as -> by (by destruct var).
  pose proof (length_nonneg text) as Hpos.
  destruct (Z.ltb_spec (QString.length text) width) as [Hlt|Hge].
  - rewrite arg_percent_1. unfold pad.
    destruct (isString var).
    + replace (Z.max (Z.abs (width * -1)) (QString.length text) - QString.length text)
        with (width - QString.length text) by lia.
      rewrite (proj2 (Z.ltb_ge 0 (width * -1))) by lia.
      rewrite (proj2 (Z.ltb_lt (width * -1) 0)) by lia.
      by rewrite append_nil_l.
    + replace (Z.max (Z.abs (width * 1)) (QString.length text) - QString.length text)
        with (width - QString.length text) by lia.
      rewrite (proj2 (Z.ltb_lt 0 (width * 1))) by lia.
      rewrite (proj2 (Z.ltb_ge (width * 1) 0)) by lia.
      by rewrite append_nil_r.
  - rewrite fill_nonpos by lia.
    destruct (isString var); by rewrite ?append_nil_r.
Qed.

Lemma plainParts_spec cw tid : forall i,
  (i + length tid <= length cw)%nat ->
  plainParts cw tid i = Some (zip_with alignedCell tid (drop i cw)).
Proof.
  induction tid as [|var rest IH]; intros i Hlen; cbn [plainParts]; [done |].
  cbn [length] in Hlen.
  destruct (lookup_lt_is_Some_2 cw i) as [w Hw]; [lia |].
  rewrite Hw. cbn [mbind option_bind].
  rewrite IH by lia. cbn [mbind option_bind].
  rewrite (drop_S cw w i Hw). cbn [zip_with].
  by rewrite itemDataToPlain_aligned.
Qed.

Lemma dataLine_plain tw cw tid :
  (length tid <= length cw)%nat ->
  dataLine tw ST_FORMAT_PLAIN cw tid = Some (plainRow cw tid).
Proof.
  intros H. unfold dataLine. rewrite plainParts_spec by (simpl; lia).
  by rewrite drop_0.
Qed.

Lemma rows_fit dlg tid :
  tid ∈ rowsOf dlg ->
  (length tid <= length (specWidths (statsTreeWidget dlg) (rowsOf dlg)))%nat.
Proof. rewrite length_specWidths. apply maxCells_ge. Qed.

(** The plain output in closed form. *)
Lemma getTreeAsString_plain dlg :
  let tw := statsTreeWidget dlg in
  let col_widths := specWidths tw (rowsOf dlg) in
  let header_line := join "  " (plainHeaderParts tw col_widths) in
  let footer := fill "-" (QString.length header_line) +:+ eol in
  getTreeAsString dlg ST_FORMAT_PLAIN
  = Some ((fill "=" (QString.length header_line) +:+ eol)
          +:+ (windowSubtitle dlg +:+ " - " +:+ fileName dlg +:+ ":" +:+ eol)
          +:+ (header_line +:+ eol)
          +:+ footer
          +:+ appendAll (map (plainRow col_widths) (dataRows dlg))
          +:+ footer).
Proof.
  intros tw col_widths header_line footer.
  unfold getTreeAsString, header. fold tw.
  rewrite widthPass_spec. fold tw col_widths. cbn [mbind option_bind].
  rewrite multiArg_file_header.
  rewrite (dataLoop_spec dlg ST_FORMAT_PLAIN col_widths (plainRow col_widths)).
  - cbn [mbind option_bind]. f_equal.
    fold header_line. unfold plain_sep_. fold header_line footer.
    unfold dataRows, rowsOf. fold tw.
    by rewrite !append_assoc.
  - intros it Hin _. apply dataLine_plain, rows_fit.
    unfold rowsOf. by apply list_elem_of_fmap_2.
Qed.

Lemma plainHeaderParts_take tw cw :
  plainHeaderParts tw cw = take (length cw) (headerLabels tw).
Proof.
  unfold plainHeaderParts, columnCount, headerText. apply list_eq. intros i.
  rewrite list_lookup_fmap, lookup_take.
  destruct (decide (i < Nat.min (length (headerLabels tw)) (length cw))%nat) as [Hi|Hi].
  - rewrite lookup_seq_lt by done. cbn [fmap option_fmap option_map].
    destruct (lookup_lt_is_Some_2 (headerLabels tw) i) as [h Hh]; [lia |].
    rewrite Nat.add_0_l, Hh. cbn [default]. rewrite decide_True by lia. done.
  - rewrite lookup_seq_ge by lia. cbn [fmap option_fmap option_map].
    case_decide; [| done]. symmetry. apply lookup_ge_None_2. lia.
Qed.

(** C2.  In the plain format every visible row that has a cell gives one
    line: its cells in order, each aligned in the width of its column, a
    string to the left and every other type to the right, joined by two
    spaces and ended by a line feed; no cell of a row is left out.  The
    separator line of dashes that closes the header block is appended
    once more after the last row and ends the output. *)
Theorem plain_rows_and_footer dlg :
  let tw := statsTreeWidget dlg in
  exists col_widths,
    widthPass dlg (visibleItems tw) [] = Some col_widths
    /\ (forall tid, tid ∈ dataRows dlg ->
          length (zip_with alignedCell tid col_widths) = length tid)
    /\ (forall var width,
          alignedCell var width
          = if isString var
            then plainText var +:+ fill " " (width - QString.length (plainText var))
            else fill " " (width - QString.length (plainText var)) +:+ plainText var)
    /\ let header_line := join "  " (plainHeaderParts tw col_widths) in
       let footer := fill "-" (QString.length header_line) +:+ eol in
       getTreeAsString dlg ST_FORMAT_PLAIN
       = Some ((fill "=" (QString.length header_line) +:+ eol)
               +:+ (windowSubtitle dlg +:+ " - " +:+ fileName dlg +:+ ":" +:+ eol)
               +:+ (header_line +:+ eol)
               +:+ footer
               +:+ appendAll
                     (map (fun tid => join "  " (zip_with alignedCell tid col_widths) +:+ eol)
                        (dataRows dlg))
               +:+ footer).
Proof.
  intros tw. exists (specWidths tw (rowsOf dlg)).
  split; [apply widthPass_spec |].
  split.
  { intros tid Hin. apply length_zip_with_l.
    apply rows_fit. unfold dataRows in Hin.
    apply list_elem_of_In, filter_In in Hin as [Hin _]. by apply list_elem_of_In. }
  split; [done |].
  apply getTreeAsString_plain.
Qed.

(** C9.  The width pass leaves a list of widths as long as the longest
    row, so the second pass, which reads the same rows, finds a width at
    every cell position of every row: its indexed accesses never fail and
    the plain serialization always gives a result. *)
Theorem plain_width_index_in_bounds dlg :
  let tw := statsTreeWidget dlg in
  exists col_widths,
    widthPass dlg (visibleItems tw) [] = Some col_widths
    /\ length col_widths = maxCells (rowsOf dlg)
    /\ (forall tid i, tid ∈ rowsOf dlg -> (i < length tid)%nat ->
          (i < length col_widths)%nat /\ is_Some (col_widths !! i))
    /\ (forall tid, tid ∈ rowsOf dlg ->
          is_Some (plainParts col_widths tid 0))
    /\ is_Some (getTreeAsString dlg ST_FORMAT_PLAIN).
Proof.
  intros tw. exists (specWidths tw (rowsOf dlg)).
  split; [apply widthPass_spec |].
  split; [apply length_specWidths |].
  split.
  { intros tid i Hin Hi. pose proof (rows_fit dlg tid Hin) as Hfit. fold tw in Hfit.
    split; [lia |]. apply lookup_lt_is_Some_2. lia. }
  split.
  { intros tid Hin. rewrite plainParts_spec; [by eexists |].
    pose proof (rows_fit dlg tid Hin). fold tw in H. simpl. lia. }
  rewrite getTreeAsString_plain. by eexists.
Qed.

(** C10.  The header line of the plain format holds the leading header
    labels only, as many as the width pass made widths, which is the
    largest cell count of a visible row (or all labels when there are
    fewer); the two separator lines are as long as that line.  When no
    visible row has a cell, as with the base implementation of
    [treeItemData], the header line and both separators are empty. *)
Theorem plain_header_columns dlg :
  let tw := statsTreeWidget dlg in
  let header_line := join "  " (take (maxCells (rowsOf dlg)) (headerLabels tw)) in
  (exists col_widths,
     widthPass dlg (visibleItems tw) [] = Some col_widths
     /\ length col_widths = maxCells (rowsOf dlg)
     /\ plainHeaderParts tw col_widths = take (length col_widths) (headerLabels tw))
  /\ getTreeAsString dlg ST_FORMAT_PLAIN
     = Some ((fill "=" (QString.length header_line) +:+ eol)
             +:+ (windowSubtitle dlg +:+ " - " +:+ fileName dlg +:+ ":" +:+ eol)
             +:+ (header_line +:+ eol)
             +:+ (fill "-" (QString.length header_line) +:+ eol)
             +:+ appendAll
                   (map (plainRow (specWidths tw (rowsOf dlg))) (dataRows dlg))
             +:+ (fill "-" (QString.length header_line) +:+ eol))
  /\ (maxCells (rowsOf dlg) = 0%nat ->
      getTreeAsString dlg ST_FORMAT_PLAIN
      = Some (eol +:+ (windowSubtitle dlg +:+ " - " +:+ fileName dlg +:+ ":" +:+ eol)
              +:+ eol +:+ eol +:+ eol))
  /\ (forall tw' title file,
      getTreeAsString
        {| statsTreeWidget := tw'; windowSubtitle := title; fileName := file;
           treeItemData := treeItemData_base |} ST_FORMAT_PLAIN
      = Some (eol +:+ (title +:+ " - " +:+ file +:+ ":" +:+ eol) +:+ eol +:+ eol +:+ eol)).
Proof.
  intros tw header_line.
  assert (Hempty : forall d : TapParameterDialog,
    maxCells (rowsOf d) = 0%nat ->
    getTreeAsString d ST_FORMAT_PLAIN
    = Some (eol +:+ (windowSubtitle d +:+ " - " +:+ fileName d +:+ ":" +:+ eol)
            +:+ eol +:+ eol +:+ eol)).
  { intros d H0. rewrite getTreeAsString_plain.
    rewrite plainHeaderParts_take, length_specWidths, H0, take_0.
    assert (dataRows d = []) as ->.
    { unfold dataRows. generalize (rowsOf d) H0. clear.
      induction l as [|tid l IH]; [done |]. cbn [maxCells foldr List.filter].
      destruct tid; cbn [length hasCells]; [apply IH | lia]. }
    reflexivity. }
  split.
  { exists (specWidths tw (rowsOf dlg)).
    split; [apply widthPass_spec |]. split; [apply length_specWidths |].
    apply plainHeaderParts_take. }
  split.
  { rewrite getTreeAsString_plain. fold tw.
    rewrite plainHeaderParts_take, length_specWidths. done. }
  split; [apply Hempty |].
  intros tw' title file. rewrite Hempty; [done |].
  unfold rowsOf. cbn [treeItemData statsTreeWidget].
  generalize (visibleItems tw'). clear.
  induction l as [|it l IH]; [done |]. cbn [map maxCells foldr]. apply IH.
Qed.

(** ** The header labels *)

Lemma headerTexts tw : map (headerText tw) (seq 0 (columnCount tw)) = headerLabels tw.
Proof.
  pose proof (plainHeaderParts_take tw (replicate (columnCount tw) 0)) as H.
  unfold plainHeaderParts in H. rewrite length_replicate, Nat.min_id in H.
  rewrite H. apply take_ge. unfold columnCount. done.
Qed.

Lemma map_headerTexts {B} (f : string -> B) tw :
  map (fun col => f (headerText tw col)) (seq 0 (columnCount tw))
  = map f (headerLabels tw).
Proof. rewrite <- (map_map (headerText tw) f). by rewrite headerTexts. Qed.

(** ** The CSV format *)

Lemma csvField_cell var : csvField var = csvCell var.
Proof. unfold csvField, csvCell. destruct (isString var); [apply arg_quoted | done]. Qed.

Lemma contains_append c s1 s2 : contains c (s1 +:+ s2) = contains c s1 || contains c s2.
Proof.
  induction s1 as [|a s1 IH]; [done |].
  rewrite append_cons. cbn [contains]. rewrite IH. by rewrite orb_assoc.
Qed.

Lemma contains_join c sep parts :
  contains c sep = false ->
  Forall (fun part => contains c part = false) parts ->
  contains c (join sep parts) = false.
Proof.
  intros Hsep Hall. unfold join.
  induction Hall as [|x parts Hx Hall IH]; [done |].
  destruct parts as [|y parts]; [done |].
  change (String.concat sep (x :: y :: parts))
    with (x +:+ sep +:+ String.concat sep (y :: parts)).
  by rewrite !contains_append, Hx, Hsep, IH.
Qed.

Lemma cString_whole (s : string) : contains Ascii.zero s = false -> cString s = s.
Proof.
  induction s as [|a s IH]; [done |]. cbn [contains cString].
  intros [Ha Hs]%orb_false_iff. by rewrite Ha, (IH Hs).
Qed.

(** The header row as [csv_header] holds it, before it is appended. *)
Lemma csv_header_row tw :
  join "," (map (fun col => arg quoted_template (headerText tw col) 0)
              (seq 0 (columnCount tw))) +:+ eol
  = join "," (map quoted (headerLabels tw)) +:+ eol.
Proof.
  do 2 f_equal. rewrite <- (map_headerTexts quoted).
  apply map_ext. intros col. apply arg_quoted.
Qed.

Lemma csv_header_row_whole tw :
  Forall (fun label => contains Ascii.zero label = false) (headerLabels tw) ->
  cString (join "," (map quoted (headerLabels tw)) +:+ eol)
  = join "," (map quoted (headerLabels tw)) +:+ eol.
Proof.
  intros Hall. apply cString_whole. rewrite contains_append, contains_join; [done .. |].
  apply (proj2 (List.Forall_map quoted (fun part => contains Ascii.zero part = false) _)).
  eapply Forall_impl; [exact Hall |].
  intros label Hlabel. cbv beta. unfold quoted. by rewrite !contains_append, Hlabel.
Qed.

Lemma getTreeAsString_csv dlg :
  getTreeAsString dlg ST_FORMAT_CSV
  = Some (cString (join "," (map quoted (headerLabels (statsTreeWidget dlg))) +:+ eol)
          +:+ appendAll (map csvRow (dataRows dlg))).
Proof.
  unfold getTreeAsString, header. cbn [mbind option_bind].
  rewrite (dataLoop_spec dlg ST_FORMAT_CSV [] csvRow).
  - cbn [mbind option_bind]. f_equal. rewrite append_nil_r. f_equal.
    by rewrite csv_header_row.
  - intros it _ _. unfold dataLine, csvRow. do 3 f_equal.
    apply map_ext. intros var. apply csvField_cell.
Qed.

(** *** Reading a CSV line back *)











(** ** The XML format *)

Lemma dataLine_xml tw cw tid :
  dataLine tw ST_FORMAT_XML cw tid = Some (xmlRow tid).
Proof.
  unfold dataLine, xmlRow. f_equal.
  rewrite (fold_left_append (xmlEntry)), append_assoc.
  do 3 f_equal. apply map_ext. intros var. unfold xmlEntry, xmlEntryOf.
  apply arg_entry.
Qed.

Lemma getTreeAsString_xml dlg :
  getTreeAsString dlg ST_FORMAT_XML
  = Some (xmlDeclaration
          +:+ ("<table>" +:+ eol +:+ "<title>"
               +:+ toHtmlEscaped (windowSubtitle dlg) +:+ "</title>" +:+ eol)
          +:+ ("<thead>" +:+ eol +:+ "<row>" +:+ eol)
          +:+ appendAll (map xmlEntryOf (headerLabels (statsTreeWidget dlg)))
          +:+ ("</row>" +:+ eol +:+ "</thead>" +:+ eol +:+ "<tbody>" +:+ eol)
          +:+ appendAll (map xmlRow (dataRows dlg))
          +:+ ("</tbody>" +:+ eol +:+ "</table>" +:+ eol)).
Proof.
  unfold getTreeAsString, header. cbn [mbind option_bind].
  rewrite (dataLoop_spec dlg ST_FORMAT_XML [] xmlRow)
    by (intros; apply dataLine_xml).
  cbn [mbind option_bind]. f_equal.
  rewrite arg_xml_title. unfold xmlHeaderEntries.
  rewrite (fold_left_append
             (fun col => arg entry_template
                           (toHtmlEscaped (headerText (statsTreeWidget dlg) col)) 0)).
  rewrite append_nil_l.
  assert (map (fun col => arg entry_template
                 (toHtmlEscaped (headerText (statsTreeWidget dlg) col)) 0)
              (seq 0 (columnCount (statsTreeWidget dlg)))
          = map xmlEntryOf (headerLabels (statsTreeWidget dlg))) as ->.
  { rewrite <- (map_headerTexts xmlEntryOf). apply map_ext. intros col. apply arg_entry. }
  unfold xmlDeclaration, quoted, dataRows, rowsOf.
  rewrite !append_assoc. reflexivity.
Qed.

Lemma toHtmlEscaped_append s1 s2 :
  toHtmlEscaped (s1 +:+ s2) = toHtmlEscaped s1 +:+ toHtmlEscaped s2.
Proof.
  induction s1 as [|c s1 IH]; [done |].
  rewrite append_cons. cbn [toHtmlEscaped]. by rewrite IH, append_assoc.
Qed.

Lemma toHtmlEscaped_other (c : ascii) :
  c <> "<"%char -> c <> ">"%char -> c <> "&"%char -> c <> DQUOTE ->
  toHtmlEscaped (str1 c) = str1 c.
Proof.
  intros H1 H2 H3 H4. unfold str1. cbn [toHtmlEscaped]. unfold escapeChar.
  rewrite !(proj2 (Stdlib.Strings.Ascii.eqb_neq _ _)) by done.
  by rewrite append_nil_r.
Qed.

Lemma toHtmlEscaped_clean s :
  contains "<" (toHtmlEscaped s) = false
  /\ contains ">" (toHtmlEscaped s) = false
  /\ contains DQUOTE (toHtmlEscaped s) = false.
Proof.
  induction s as [|c s (IH1 & IH2 & IH3)]; [done |].
  cbn [toHtmlEscaped]. rewrite !contains_append, IH1, IH2, IH3, !orb_false_r.
  unfold escapeChar.
  destruct (Stdlib.Strings.Ascii.eqb_spec c "<"); [done |].
  destruct (Stdlib.Strings.Ascii.eqb_spec c ">"); [done |].
  destruct (Stdlib.Strings.Ascii.eqb_spec c "&"); [done |].
  destruct (Stdlib.Strings.Ascii.eqb_spec c DQUOTE); [done |].
  unfold str1. cbn [contains]. rewrite !orb_false_r.
  rewrite !(proj2 (Stdlib.Strings.Ascii.eqb_neq _ _)) by done. done.
Qed.

(** C4, as the code has it.  The XML output is the declaration, the
    [table] element with the escaped title, a header row with one [entry]
    for each header label and a body with one [row] for each visible row
    that has a cell, with one [entry] for each cell; every text, of any
    cell type, is escaped.  Escaping works character by character: the
    ampersand, the two angle brackets and the double quote become
    entities, every other character, the apostrophe among them, is
    copied; the escaped text holds no angle bracket and no double
    quote. *)
Theorem xml_output_escaping dlg :
  getTreeAsString dlg ST_FORMAT_XML
  = Some (xmlDeclaration
          +:+ ("<table>" +:+ eol +:+ "<title>"
               +:+ toHtmlEscaped (windowSubtitle dlg) +:+ "</title>" +:+ eol)
          +:+ ("<thead>" +:+ eol +:+ "<row>" +:+ eol)
          +:+ appendAll
                (map (fun label => "  <entry>" +:+ toHtmlEscaped label +:+ "</entry>" +:+ eol)
                   (headerLabels (statsTreeWidget dlg)))
          +:+ ("</row>" +:+ eol +:+ "</thead>" +:+ eol +:+ "<tbody>" +:+ eol)
          +:+ appendAll
                (map (fun tid =>
                        ("<row>" +:+ eol)
                        +:+ appendAll
                              (map (fun var => "  <entry>"
                                      +:+ toHtmlEscaped (toString var)
                                      +:+ "</entry>" +:+ eol) tid)
                        +:+ ("</row>" +:+ eol))
                   (dataRows dlg))
          +:+ ("</tbody>" +:+ eol +:+ "</table>" +:+ eol))
  /\ (forall s1 s2, toHtmlEscaped (s1 +:+ s2) = toHtmlEscaped s1 +:+ toHtmlEscaped s2)
  /\ toHtmlEscaped "&" = "&amp;"
  /\ toHtmlEscaped "<" = "&lt;"
  /\ toHtmlEscaped ">" = "&gt;"
  /\ toHtmlEscaped (str1 DQUOTE) = "&quot;"
  /\ (forall c : ascii,
        c <> "<"%char -> c <> ">"%char -> c <> "&"%char -> c <> DQUOTE ->
        toHtmlEscaped (str1 c) = str1 c)
  /\ (forall s,
        contains "<" (toHtmlEscaped s) = false
        /\ contains ">" (toHtmlEscaped s) = false
        /\ contains DQUOTE (toHtmlEscaped s) = false).
Proof.
  split; [apply getTreeAsString_xml |].
  split; [apply toHtmlEscaped_append |].
  do 4 (split; [reflexivity |]).
  split; [apply toHtmlEscaped_other | apply toHtmlEscaped_clean].
Qed.

(** ** The YAML format *)

Lemma yamlCell_entry var :
  (if isString var then arg quoted_template (toString var) 0 else toString var)
  = yamlValue var.
Proof. unfold yamlValue. destruct (isString var); [apply arg_quoted | done]. Qed.

Lemma fold_yamlCell_next tw tid : forall line col,
  fold_left (yamlCell tw) tid (line, " ", col)
  = (line +:+ yamlNext tw col tid, " ", (col + length tid)%nat).
Proof.
  induction tid as [|var rest IH]; intros line col; cbn [fold_left yamlNext length].
  - by rewrite append_nil_r, Nat.add_0_r.
  - unfold yamlCell at 2. rewrite yamlCell_entry, multiArg_yaml_next, IH.
    rewrite append_assoc. f_equal. lia.
Qed.

Lemma dataLine_yaml tw cw tid :
  dataLine tw ST_FORMAT_YAML cw tid = Some (yamlRow tw tid).
Proof.
  unfold dataLine. f_equal. destruct tid as [|var rest]; [done |].
  cbn [fold_left yamlRow]. unfold yamlCell at 2.
  rewrite yamlCell_entry, multiArg_yaml_first, fold_yamlCell_next.
  by rewrite append_nil_l.
Qed.

(** *** The title and the file name

    The header of the YAML format is built by two calls of [arg] in a
    row, so the second call scans the title that the first one put in.
    A title without percent sign has no place marker; a title whose place
    markers are all numbered higher than 2 keeps them. *)

Lemma tokenize_plain t rest :
  contains "%" t = false -> tokenize (t +:+ rest) = textTokens t ++ tokenize rest.
Proof.
  induction t as [|a t IH]; [done |]. cbn [contains].
  intros [Ha Ht]%orb_false_iff. rewrite append_cons.
  change (textTokens (String a t)) with (TText a :: textTokens t). cbn [app].
  rewrite <- (IH Ht). cbn [tokenize]. by rewrite Ha.
Qed.

Lemma numbers_app ts1 ts2 : numbers (ts1 ++ ts2) = numbers ts1 ++ numbers ts2.
Proof. unfold numbers. apply omap_app. Qed.

Lemma numbers_textTokens t : numbers (textTokens t) = [].
Proof.
  unfold textTokens. induction (String.list_ascii_of_string t) as [|a l IH]; [done |].
  exact IH.
Qed.

Lemma appendAll_app l1 l2 : appendAll (l1 ++ l2) = appendAll l1 +:+ appendAll l2.
Proof.
  unfold appendAll. induction l1 as [|x l1 IH]; [done |].
  cbn [app foldr]. by rewrite IH, append_assoc.
Qed.

Lemma render_textTokens subst t : appendAll (map (render subst) (textTokens t)) = t.
Proof.
  unfold textTokens, appendAll. induction t as [|a t IH]; [done |].
  cbn [String.list_ascii_of_string map foldr render]. by rewrite IH.
Qed.


(** The scan of a title goes on after it as if the title stood alone,
    when the character that follows can be no part of a place marker. *)
Lemma tokenize_break (c : ascii) (rest : string) :
  digitValue c = None -> Stdlib.Strings.Ascii.eqb c "L" = false ->
  forall n t, (String.length t <= n)%nat ->
    tokenize (t +:+ String c rest) = tokenize t ++ tokenize (String c rest).
Proof.
  intros Hd HL. remember (String c rest) as cr eqn:Hcr.
  induction n as [|n IH]; intros t Hn.
  { destruct t; [| cbn in Hn; lia]. by rewrite append_nil_l. }
  destruct t as [|c0 s1]; [by rewrite append_nil_l |].
  cbn [String.length] in Hn.
  rewrite append_cons. cbn [tokenize].
  destruct (Stdlib.Strings.Ascii.eqb c0 "%") eqn:E0;
    [| rewrite IH by lia; reflexivity].
  destruct s1 as [|c1 s2].
  { rewrite append_nil_l. subst cr. rewrite HL, Hd. reflexivity. }
  cbn [String.length] in Hn. rewrite append_cons.
  destruct (Stdlib.Strings.Ascii.eqb c1 "L") eqn:E1.
  - destruct s2 as [|c2 s3].
    { rewrite append_nil_l. subst cr. rewrite Hd. reflexivity. }
    cbn [String.length] in Hn. rewrite append_cons.
    destruct (digitValue c2) as [d|] eqn:E2.
    + destruct s3 as [|c3 s4].
      { rewrite append_nil_l. subst cr. rewrite Hd. reflexivity. }
      cbn [String.length] in Hn. rewrite append_cons.
      destruct (digitValue c3) as [d'|] eqn:E3.
      * rewrite IH by lia. reflexivity.
      * rewrite <- append_cons, IH by (cbn [String.length]; lia). reflexivity.
    + rewrite <- append_cons, IH by (cbn [String.length]; lia). reflexivity.
  - destruct (digitValue c1) as [d|] eqn:E2.
    + destruct s2 as [|c2 s3].
      { rewrite append_nil_l. subst cr. rewrite Hd. reflexivity. }
      cbn [String.length] in Hn. rewrite append_cons.
      destruct (digitValue c2) as [d'|] eqn:E3.
      * rewrite IH by lia. reflexivity.
      * rewrite <- append_cons, IH by (cbn [String.length]; lia). reflexivity.
    + rewrite <- append_cons, IH by (cbn [String.length]; lia). reflexivity.
Qed.

(** The first token of a text, and the text that the scan goes on with:
    a token holds the characters it was read from. *)
Lemma tokenize_first (t : string) :
  t = ""
  \/ exists tok t',
      tokenize t = tok :: tokenize t'
      /\ t = render (fun _ => None) tok +:+ t'
      /\ (String.length t' < String.length t)%nat.
Proof.
  destruct t as [|c0 s1]; [by left |]. right. cbn [tokenize].
  destruct (Stdlib.Strings.Ascii.eqb c0 "%") eqn:E0;
    [| exists (TText c0), s1; cbn; split_and!; [done | done | lia]].
  destruct s1 as [|c1 s2];
    [exists (TText c0), ""; cbn; split_and!; [done | done | lia] |].
  destruct (Stdlib.Strings.Ascii.eqb c1 "L") eqn:E1.
  - apply Stdlib.Strings.Ascii.eqb_eq in E1. subst c1.
    destruct s2 as [|c2 s3];
      [exists (TText c0), "L"; cbn; split_and!; [done | done | lia] |].
    destruct (digitValue c2) as [d|] eqn:E2;
      [| exists (TText c0), (String "L" (String c2 s3));
         cbn; split_and!; [done | done | lia]].
    destruct s3 as [|c3 s4];
      [exists (TEscape d (str3 c0 "L" c2)), ""; cbn; split_and!; [done | done | lia] |].
    destruct (digitValue c3) as [d'|] eqn:E3.
    + exists (TEscape (10 * d + d') (str4 c0 "L" c2 c3)), s4.
      cbn; split_and!; [done | done | lia].
    + exists (TEscape d (str3 c0 "L" c2)), (String c3 s4).
      cbn; split_and!; [done | done | lia].
  - destruct (digitValue c1) as [d|] eqn:E2;
      [| exists (TText c0), (String c1 s2); cbn; split_and!; [done | done | lia]].
    destruct s2 as [|c2 s3];
      [exists (TEscape d (str2 c0 c1)), ""; cbn; split_and!; [done | done | lia] |].
    destruct (digitValue c2) as [d'|] eqn:E3.
    + exists (TEscape (10 * d + d') (str3 c0 c1 c2)), s3.
      cbn; split_and!; [done | done | lia].
    + exists (TEscape d (str2 c0 c1)), (String c2 s3).
      cbn; split_and!; [done | done | lia].
Qed.

(** A text whose markers are all left alone is rendered as it is. *)
Lemma render_tokenize (subst : nat -> option string) :
  forall n t, (String.length t <= n)%nat ->
    Forall (fun k => subst k = None) (numbers (tokenize t)) ->
    appendAll (map (render subst) (tokenize t)) = t.
Proof.
  induction n as [|n IH]; intros t Hn Hall.
  { destruct t; [done | cbn in Hn; lia]. }
  destruct (tokenize_first t) as [-> | (tok & t' & Htok & Ht & Hlen)]; [done |].
  rewrite Htok in Hall |- *. cbn [map]. unfold appendAll. cbn [foldr].
  fold (appendAll (map (render subst) (tokenize t'))).
  destruct tok as [c | k raw].
  - rewrite IH; [by rewrite Ht | lia | exact Hall].
  - change (numbers (TEscape k raw :: tokenize t')) with (k :: numbers (tokenize t')) in Hall.
    apply Forall_cons in Hall as [Hk Hrest].
    rewrite IH; [| lia | exact Hrest].
    cbn [render]. rewrite Hk. cbn [default]. by rewrite Ht.
Qed.

(** The lowest number of a list is its least element. *)
Lemma foldr_min_spec (a : nat) (l : list nat) :
  (foldr Nat.min a l = a \/ foldr Nat.min a l ∈ l)
  /\ (foldr Nat.min a l <= a)%nat
  /\ Forall (fun n => (foldr Nat.min a l <= n)%nat) l.
Proof.
  induction l as [|x l (Hin & Hle & Hall)]; cbn [foldr].
  - split_and!; [by left | done | constructor].
  - split_and!.
    + destruct (Nat.min_spec x (foldr Nat.min a l)) as [[_ ->] | [_ ->]].
      * right. apply elem_of_cons. by left.
      * destruct Hin as [-> | Hin]; [by left | right; apply elem_of_cons; by right].
    + lia.
    + constructor; [lia |]. eapply Forall_impl; [exact Hall |]. cbv beta. lia.
Qed.

Lemma lowest_spec (l : list nat) (m : nat) :
  lowest l = Some m <-> m ∈ l /\ Forall (fun n => (m <= n)%nat) l.
Proof.
  destruct l as [|a l]; cbn [lowest].
  { split; [done | intros [H _]; by apply elem_of_nil in H]. }
  destruct (foldr_min_spec a l) as (Hin & Hle & Hall).
  split.
  - intros [= <-]. split.
    + apply elem_of_cons. destruct Hin as [-> | Hin]; [by left | by right].
    + by constructor.
  - intros [Hm Hleast]. f_equal.
    apply Nat.le_antisymm.
    + apply elem_of_cons in Hm as [-> | Hm]; [done |].
      by apply (proj1 (Forall_forall _ _) Hall).
    + assert (foldr Nat.min a l ∈ a :: l) as Hmin
        by (apply elem_of_cons; destruct Hin as [-> | Hin]; [by left | by right]).
      by apply (proj1 (Forall_forall _ _) Hleast).
Qed.

Lemma lowest_app_above (l1 l2 : list nat) (m : nat) :
  Forall (fun n => (m < n)%nat) l1 -> lowest l2 = Some m -> lowest (l1 ++ l2) = Some m.
Proof.
  intros Habove [Hm Hleast]%lowest_spec. apply lowest_spec. split.
  - apply elem_of_app. by right.
  - apply Forall_app. split; [| done].
    eapply Forall_impl; [exact Habove |]. cbv beta. lia.
Qed.

(** [arg] on a template whose first marker stands after a title: the
    markers of the title have higher numbers and are left as they are. *)
Lemma arg_after_title pre title c rest a fieldWidth m :
  contains "%" pre = false ->
  digitValue c = None -> Stdlib.Strings.Ascii.eqb c "L" = false ->
  Forall (fun n => (m < n)%nat) (numbers (tokenize title)) ->
  lowest (numbers (tokenize (String c rest))) = Some m ->
  arg (pre +:+ title +:+ String c rest) a fieldWidth
  = pre +:+ title
    +:+ appendAll
          (map (render (fun n => if Nat.eqb n m then Some (pad a fieldWidth) else None))
             (tokenize (String c rest))).
Proof.
  intros Hpre Hd HL Habove Hm. unfold arg.
  rewrite tokenize_plain by done.
  rewrite (tokenize_break c rest Hd HL (String.length title) title) by lia.
  rewrite !numbers_app, numbers_textTokens, app_nil_l.
  rewrite (lowest_app_above _ _ m Habove Hm).
  rewrite !map_app, !appendAll_app, render_textTokens.
  rewrite (render_tokenize _ (String.length title) title); [done | lia |].
  eapply Forall_impl; [exact Habove |]. cbv beta. intros k Hk.
  by rewrite (proj2 (Nat.eqb_neq k m)) by lia.
Qed.

Lemma collidingMarker_above (title : string) :
  collidingMarker title = false ->
  Forall (fun n => (2 < n)%nat) (numbers (tokenize title)).
Proof.
  unfold collidingMarker. induction (numbers (tokenize title)) as [|k l IH]; [constructor |].
  cbn [existsb]. intros [Hk Hl]%orb_false_iff.
  constructor; [by apply Nat.leb_gt | by apply IH].
Qed.

Lemma arg_yaml_header title file :
  collidingMarker title = false ->
  arg (arg ("Description: " +:+ quoted_template +:+ eol
            +:+ "File: " +:+ str1 DQUOTE +:+ "%2" +:+ str1 DQUOTE +:+ eol
            +:+ "Items:" +:+ eol) title 0) file 0
  = yamlHeader title file.
Proof.
  intros Htitle.
  pose (rest := eol +:+ "File: " +:+ str1 DQUOTE +:+ "%2"
                +:+ str1 DQUOTE +:+ eol +:+ "Items:" +:+ eol).
  assert (arg ("Description: " +:+ quoted_template +:+ eol
               +:+ "File: " +:+ str1 DQUOTE +:+ "%2" +:+ str1 DQUOTE +:+ eol
               +:+ "Items:" +:+ eol) title 0
          = ("Description: " +:+ str1 DQUOTE) +:+ title +:+ String DQUOTE rest) as ->.
  { transitivity (("Description: " +:+ str1 DQUOTE) +:+ pad title 0 +:+ String DQUOTE rest);
      [reflexivity |].
    by rewrite pad_zero. }
  rewrite (arg_after_title _ title DQUOTE rest file 0 2);
    [| reflexivity | reflexivity | reflexivity
     | by apply collidingMarker_above | reflexivity].
  transitivity (("Description: " +:+ str1 DQUOTE) +:+ title
                +:+ str1 DQUOTE +:+ eol +:+ "File: " +:+ str1 DQUOTE
                +:+ pad file 0 +:+ str1 DQUOTE +:+ eol +:+ "Items:" +:+ eol);
    [reflexivity |].
  rewrite pad_zero. unfold yamlHeader, quoted. by rewrite !append_assoc.
Qed.

Lemma getTreeAsString_yaml dlg :
  collidingMarker (windowSubtitle dlg) = false ->
  getTreeAsString dlg ST_FORMAT_YAML
  = Some (("---" +:+ eol)
          +:+ yamlHeader (windowSubtitle dlg) (fileName dlg)
          +:+ appendAll (map (yamlRow (statsTreeWidget dlg)) (dataRows dlg))).
Proof.
  intros Htitle. unfold getTreeAsString, header. cbn [mbind option_bind].
  rewrite (dataLoop_spec dlg ST_FORMAT_YAML [] (yamlRow (statsTreeWidget dlg)))
    by (intros; apply dataLine_yaml).
  cbn [mbind option_bind]. f_equal.
  rewrite arg_yaml_header by done. unfold dataRows, rowsOf.
  by rewrite append_nil_r, !append_assoc.
Qed.

(** C5, as the code has it.  For a title without a place marker numbered
    2 or less (a percent sign that starts no marker, or a marker with a
    higher number, is copied as it is), the YAML output is the line of
    three dashes, one [Description:] line with the title between double
    quotes, one [File:] line with the file name between double quotes and
    the [Items:] line, then the lines of every visible row that has a
    cell.  Every cell is on a line of its own; a string value is between
    double quotes, a value of any other type is bare.  The line of the
    first cell of a row starts with two spaces, a dash and a space; the
    line of every later cell starts with four spaces. *)
Theorem yaml_output dlg :
  collidingMarker (windowSubtitle dlg) = false ->
  let tw := statsTreeWidget dlg in
  getTreeAsString dlg ST_FORMAT_YAML
  = Some (("---" +:+ eol)
          +:+ ("Description: " +:+ str1 DQUOTE +:+ windowSubtitle dlg +:+ str1 DQUOTE +:+ eol
               +:+ "File: " +:+ str1 DQUOTE +:+ fileName dlg +:+ str1 DQUOTE +:+ eol
               +:+ "Items:" +:+ eol)
          +:+ appendAll (map (yamlRow tw) (dataRows dlg)))
  /\ (forall var rest,
        yamlRow tw (var :: rest)
        = ("  - " +:+ headerText tw 0 +:+ ": " +:+ yamlValue var +:+ eol)
          +:+ yamlNext tw 1 rest)
  /\ (forall col var rest,
        yamlNext tw col (var :: rest)
        = ("    " +:+ headerText tw col +:+ ": " +:+ yamlValue var +:+ eol)
          +:+ yamlNext tw (S col) rest)
  /\ (forall col, yamlNext tw col [] = "")
  /\ (forall s, yamlValue (VString s) = str1 DQUOTE +:+ s +:+ str1 DQUOTE)
  /\ (forall var, isString var = false -> yamlValue var = toString var).
Proof.
  intros Htitle tw. split.
  { rewrite getTreeAsString_yaml by done. unfold yamlHeader, quoted.
    by rewrite !append_assoc. }
  repeat split; try done.
  intros var. unfold yamlValue. by intros ->.
Qed.

(** ** Rows without cells *)

Lemma headerText_labels tw1 tw2 :
  headerLabels tw1 = headerLabels tw2 -> headerText tw1 = headerText tw2.
Proof. intros H. unfold headerText. by rewrite H. Qed.

Lemma widthCells_labels tw1 tw2 tid :
  headerLabels tw1 = headerLabels tw2 ->
  forall col cw, widthCells tw1 tid col cw = widthCells tw2 tid col cw.
Proof.
  intros H. induction tid as [|var rest IH]; intros col cw; cbn [widthCells]; [done |].
  rewrite (headerText_labels tw1 tw2 H).
  destruct (if isString var then _ else _) as [cw2|]; cbn [mbind option_bind]; [| done].
  apply IH.
Qed.

Lemma dataLine_labels tw1 tw2 format cw tid :
  headerLabels tw1 = headerLabels tw2 ->
  dataLine tw1 format cw tid = dataLine tw2 format cw tid.
Proof.
  intros H. destruct format; [reflexivity | reflexivity | reflexivity |].
  unfold dataLine, yamlCell. by rewrite (headerText_labels tw1 tw2 H).
Qed.

Lemma widthPass_cellItems dlg items : forall cw,
  widthPass dlg items cw = widthPass dlg (cellItems dlg items) cw.
Proof.
  induction items as [|it items IH]; intros cw; [done |].
  cbn [cellItems List.filter]. fold (cellItems dlg items).
  destruct (treeItemData dlg it) as [|var rest] eqn:E; cbn [hasCells].
  - cbn [widthPass]. rewrite E. cbn [widthCells mbind option_bind]. apply IH.
  - cbn [widthPass]. rewrite E.
    destruct (widthCells _ _ _ _) as [cw'|]; cbn [mbind option_bind]; [apply IH | done].
Qed.

Lemma dataLoop_cellItems dlg format cw items : forall ba,
  dataLoop dlg format cw items ba = dataLoop dlg format cw (cellItems dlg items) ba.
Proof.
  induction items as [|it items IH]; intros ba; [done |].
  cbn [cellItems List.filter]. fold (cellItems dlg items).
  destruct (treeItemData dlg it) as [|var rest] eqn:E; cbn [hasCells].
  - cbn [dataLoop]. rewrite E. cbn [length Nat.ltb Nat.leb]. apply IH.
  - cbn [dataLoop]. rewrite E. cbn [length Nat.ltb Nat.leb].
    destruct (dataLine _ _ _ _) as [line|]; cbn [mbind option_bind]; [apply IH | done].
Qed.

Lemma widthPass_sameReport d1 d2 items :
  sameReport d1 d2 -> forall cw, widthPass d1 items cw = widthPass d2 items cw.
Proof.
  intros (Hl & _ & _ & Hd). induction items as [|it items IH]; intros cw; [done |].
  cbn [widthPass]. rewrite Hd, (widthCells_labels _ _ _ Hl).
  destruct (widthCells _ _ _ _) as [cw'|]; cbn [mbind option_bind]; [apply IH | done].
Qed.

Lemma dataLoop_sameReport d1 d2 format cw items :
  sameReport d1 d2 ->
  forall ba, dataLoop d1 format cw items ba = dataLoop d2 format cw items ba.
Proof.
  intros (Hl & _ & _ & Hd). induction items as [|it items IH]; intros ba; [done |].
  cbn [dataLoop]. rewrite Hd, (dataLine_labels _ _ _ _ _ Hl).
  destruct (_ <? _)%nat; [apply IH |].
  destruct (dataLine _ _ _ _) as [line|]; cbn [mbind option_bind]; [apply IH | done].
Qed.

(** Two dialogs of the same report whose trees differ only in items
    without cells give the same output. *)
Lemma getTreeAsString_cellItems d1 d2 format :
  sameReport d1 d2 ->
  cellItems d1 (visibleItems (statsTreeWidget d1))
  = cellItems d1 (visibleItems (statsTreeWidget d2)) ->
  getTreeAsString d1 format = getTreeAsString d2 format.
Proof.
  intros Hsame Hitems.
  assert (Hwidth : widthPass d1 (visibleItems (statsTreeWidget d1)) []
                   = widthPass d2 (visibleItems (statsTreeWidget d2)) []).
  { rewrite widthPass_cellItems, Hitems, <- widthPass_cellItems.
    by apply widthPass_sameReport. }
  assert (Hloop : forall cw ba,
            dataLoop d1 format cw (visibleItems (statsTreeWidget d1)) ba
            = dataLoop d2 format cw (visibleItems (statsTreeWidget d2)) ba).
  { intros cw ba. rewrite dataLoop_cellItems, Hitems, <- dataLoop_cellItems.
    by apply dataLoop_sameReport. }
  destruct Hsame as (Hl & Ht & Hf & Hd).
  assert (Hheader : header d1 format = header d2 format).
  { unfold header, plainHeaderParts, xmlHeaderEntries, columnCount.
    rewrite Hwidth, Ht, Hf, Hl, (headerText_labels _ _ Hl). done. }
  unfold getTreeAsString. rewrite Hheader.
  destruct (header d2 format) as [[[ba cw] footer]|]; cbn [mbind option_bind]; [| done].
  by rewrite Hloop.
Qed.

(** C6.  In each of the four formats the output is the output for the
    tree without its rows that have no cell, and so is the list of widths
    of the width pass: such a row gives no line and changes no width.  In
    particular, taking one such row out of the tree changes nothing. *)
Theorem rows_without_cells_skipped dlg format :
  let items := visibleItems (statsTreeWidget dlg) in
  getTreeAsString (withItems dlg (cellItems dlg items)) format
  = getTreeAsString dlg format
  /\ widthPass dlg (cellItems dlg items) [] = widthPass dlg items []
  /\ (forall items1 it items2,
        items = items1 ++ it :: items2 ->
        treeItemData dlg it = [] ->
        getTreeAsString (withItems dlg (items1 ++ items2)) format
        = getTreeAsString dlg format
        /\ widthPass dlg (items1 ++ items2) [] = widthPass dlg items []).
Proof.
  intros items.
  assert (Hidem : forall l, cellItems dlg (cellItems dlg l) = cellItems dlg l).
  { intros l. unfold cellItems. induction l as [|it l IH]; [done |].
    cbn [List.filter]. destruct (hasCells (treeItemData dlg it)) eqn:E; [| done].
    cbn [List.filter]. by rewrite E, IH. }
  split; [| split].
  - symmetry. apply getTreeAsString_cellItems; [done |].
    cbn [withItems statsTreeWidget visibleItems]. by rewrite Hidem.
  - symmetry. apply widthPass_cellItems.
  - intros items1 it items2 Hsplit Hempty.
    assert (Hsame : cellItems dlg items = cellItems dlg (items1 ++ items2)).
    { rewrite Hsplit. unfold cellItems. rewrite !List.filter_app.
      cbn [List.filter]. by rewrite Hempty. }
    split.
    + symmetry. apply getTreeAsString_cellItems; [done |].
      cbn [withItems statsTreeWidget visibleItems]. exact Hsame.
    + rewrite (widthPass_cellItems dlg items), Hsame.
      apply widthPass_cellItems.
Qed.

(** ** The registry *)

Lemma show_lookup reg parent cf key arg :
  showTapParameterStatistics reg parent cf key arg
  = (fun creator : tpdCreator => creator parent key arg cf)
      <$> cfg_str_to_creator_ reg !! key.
Proof.
  unfold showTapParameterStatistics, QHash_contains.
  destruct (cfg_str_to_creator_ reg !! key) as [creator|] eqn:E.
  - rewrite bool_decide_eq_true_2 by eauto. done.
  - rewrite bool_decide_eq_false_2; [done |]. by intros [? ?].
Qed.

Lemma registerAll_snoc rs r reg :
  registerAll (rs ++ [r]) reg = registerOne (registerAll rs reg) r.
Proof. unfold registerAll. by rewrite fold_left_app. Qed.

Lemma show_registerOne reg r parent cf key arg :
  showTapParameterStatistics (registerOne reg r) parent cf key arg
  = if decide (r_cfg_abbr r = key) then Some (r_creator r parent key arg cf)
    else showTapParameterStatistics reg parent cf key arg.
Proof.
  rewrite !show_lookup. unfold registerOne, registerDialog.
  cbn [cfg_str_to_creator_]. case_decide as Hk.
  - subst key. by rewrite lookup_insert_eq.
  - by rewrite lookup_insert_ne.
Qed.

Lemma show_registerAll rs : forall reg parent cf key arg,
  showTapParameterStatistics (registerAll rs reg) parent cf key arg
  = match last (filter (fun r => r_cfg_abbr r = key) rs) with
    | Some r => Some (r_creator r parent key arg cf)
    | None => showTapParameterStatistics reg parent cf key arg
    end.
Proof.
  induction rs as [|r rs IH] using rev_ind; intros reg parent cf key arg; [done |].
  rewrite registerAll_snoc, show_registerOne, filter_app, last_app.
  case_decide as Hk.
  - rewrite filter_cons_True by done. done.
  - rewrite filter_cons_False by done. cbn [filter list_filter last]. apply IH.
Qed.

(** C7.  Registering a key again replaces its creator: after two
    registrations of one key the hash is the one that the second
    registration alone gives, and [showTapParameterStatistics] calls the
    second creator.  After any run of registrations it calls the creator
    of the last registration of the key.  The hash never holds a key
    twice, and two registrations of different keys give the same hash in
    either order. *)
Theorem registry_last_write_wins reg parent cf key arg :
  (forall title1 title2 group1 group2 cb1 cb2 (creator1 creator2 : tpdCreator),
      let reg1 := registerDialog title1 key group1 cb1 creator1 reg in
      let reg2 := registerDialog title2 key group2 cb2 creator2 reg1 in
      showTapParameterStatistics reg2 parent cf key arg
      = Some (creator2 parent key arg cf)
      /\ cfg_str_to_creator_ reg2
         = cfg_str_to_creator_ (registerDialog title2 key group2 cb2 creator2 reg))
  /\ (forall rs,
        showTapParameterStatistics (registerAll rs reg) parent cf key arg
        = match last (filter (fun r => r_cfg_abbr r = key) rs) with
          | Some r => Some (r_creator r parent key arg cf)
          | None => showTapParameterStatistics reg parent cf key arg
          end)
  /\ NoDup (map_to_list (cfg_str_to_creator_ reg)).*1
  /\ (forall title1 title2 key1 key2 group1 group2 cb1 cb2
             (creator1 creator2 : tpdCreator),
        key1 <> key2 ->
        cfg_str_to_creator_
          (registerDialog title2 key2 group2 cb2 creator2
             (registerDialog title1 key1 group1 cb1 creator1 reg))
        = cfg_str_to_creator_
            (registerDialog title1 key1 group1 cb1 creator1
               (registerDialog title2 key2 group2 cb2 creator2 reg))).
Proof.
  split; [| split; [| split]].
  - intros. split.
    + rewrite show_lookup. subst reg1 reg2. unfold registerDialog.
      cbn [cfg_str_to_creator_]. by rewrite lookup_insert_eq.
    + subst reg1 reg2. unfold registerDialog. cbn [cfg_str_to_creator_].
      apply insert_insert_eq.
  - intros rs. apply show_registerAll.
  - apply NoDup_fst_map_to_list.
  - intros. unfold registerDialog. cbn [cfg_str_to_creator_].
    by apply insert_insert_ne.
Qed.

(** C8.  [showTapParameterStatistics] always returns: the null pointer
    for a key that the hash does not hold, and for a key that it holds
    the dialog that the stored creator makes from the parent, the key,
    the argument and the capture file.  A key that was never registered
    is not in the hash. *)
Theorem show_unknown_or_created reg parent cf key arg :
  (cfg_str_to_creator_ reg !! key = None ->
   showTapParameterStatistics reg parent cf key arg = None)
  /\ (forall creator : tpdCreator,
        cfg_str_to_creator_ reg !! key = Some creator ->
        showTapParameterStatistics reg parent cf key arg
        = Some (creator parent key arg cf))
  /\ (forall rs,
        key ∉ map r_cfg_abbr rs ->
        showTapParameterStatistics (registerAll rs emptyRegistry) parent cf key arg = None).
Proof.
  split; [| split].
  - intros H. by rewrite show_lookup, H.
  - intros creator H. by rewrite show_lookup, H.
  - intros rs Hkey. rewrite show_registerAll.
    assert (filter (fun r => r_cfg_abbr r = key) rs = []) as ->; [| done].
    induction rs as [|r rs IH]; [done |].
    cbn [map] in Hkey. apply not_elem_of_cons in Hkey as [Hne Hrest].
    rewrite filter_cons_False by congruence. by apply IH.
Qed.

(** * Further properties of the serializer *)

(** ** Every output ends with a line feed *)

Lemma tokenize_char (c : ascii) : tokenize (str1 c) = [TText c].
Proof. unfold str1. cbn [tokenize]. by destruct (Stdlib.Strings.Ascii.eqb c "%"). Qed.

(** A character that can be no part of a place marker stays a token of
    its own at the end of a template. *)
Lemma tokenize_snoc (c : ascii) :
  digitValue c = None -> Stdlib.Strings.Ascii.eqb c "L" = false ->
  Stdlib.Strings.Ascii.eqb c "%" = false ->
  forall n s, (String.length s <= n)%nat ->
    tokenize (s +:+ str1 c) = tokenize s ++ [TText c].
Proof.
  intros Hd HL Hp. induction n as [|n IH]; intros s Hn.
  { destruct s; [| cbn in Hn; lia]. rewrite append_nil_l. apply tokenize_char. }
  destruct s as [|c0 s1]; [rewrite append_nil_l; apply tokenize_char |].
  cbn [String.length] in Hn.
  rewrite append_cons. cbn [tokenize].
  destruct (Stdlib.Strings.Ascii.eqb c0 "%") eqn:E0;
    [| rewrite IH by lia; reflexivity].
  destruct s1 as [|c1 s2].
  { rewrite append_nil_l. unfold str1.
    cbn -[digitValue Stdlib.Strings.Ascii.eqb]. rewrite ?HL, ?Hd, ?Hp. reflexivity. }
  cbn [String.length] in Hn. rewrite append_cons.
  destruct (Stdlib.Strings.Ascii.eqb c1 "L") eqn:E1.
  - destruct s2 as [|c2 s3].
    { rewrite append_nil_l. unfold str1.
      cbn -[digitValue Stdlib.Strings.Ascii.eqb]. rewrite ?HL, ?Hd, ?Hp. reflexivity. }
    cbn [String.length] in Hn. rewrite append_cons.
    destruct (digitValue c2) as [d|] eqn:E2.
    + destruct s3 as [|c3 s4].
      { rewrite append_nil_l. unfold str1.
        cbn -[digitValue Stdlib.Strings.Ascii.eqb]. rewrite ?HL, ?Hd, ?Hp. reflexivity. }
      cbn [String.length] in Hn. rewrite append_cons.
      destruct (digitValue c3) as [d'|] eqn:E3.
      * rewrite IH by lia. reflexivity.
      * rewrite <- append_cons, IH by (cbn [String.length]; lia). reflexivity.
    + rewrite <- append_cons, IH by (cbn [String.length]; lia). reflexivity.
  - destruct (digitValue c1) as [d|] eqn:E2.
    + destruct s2 as [|c2 s3].
      { rewrite append_nil_l. unfold str1.
        cbn -[digitValue Stdlib.Strings.Ascii.eqb]. rewrite ?HL, ?Hd, ?Hp. reflexivity. }
      cbn [String.length] in Hn. rewrite append_cons.
      destruct (digitValue c2) as [d'|] eqn:E3.
      * rewrite IH by lia. reflexivity.
      * rewrite <- append_cons, IH by (cbn [String.length]; lia). reflexivity.
    + rewrite <- append_cons, IH by (cbn [String.length]; lia). reflexivity.
Qed.

Lemma arg_snoc_eol (s a : string) (fieldWidth : Z) :
  arg (s +:+ eol) a fieldWidth = arg s a fieldWidth +:+ eol.
Proof.
  unfold arg, eol.
  rewrite (tokenize_snoc LF eq_refl eq_refl eq_refl (String.length s) s) by lia.
  rewrite numbers_app. cbn [numbers omap list_omap]. rewrite app_nil_r.
  destruct (lowest (numbers (tokenize s))) as [m|]; [| done].
  rewrite map_app, appendAll_app. unfold appendAll at 2.
  cbn [map foldr render]. by rewrite append_nil_r.
Qed.

Lemma endsWithLF_append (p s : string) : endsWithLF s -> endsWithLF (p +:+ s).
Proof. intros [body ->]. exists (p +:+ body). by rewrite append_assoc. Qed.

Lemma endsWithLF_eol (p : string) : endsWithLF (p +:+ eol).
Proof. by exists p. Qed.

(** After a text that ends with a line feed, lines that each end with
    one. *)
Lemma endsWithLF_lines (p : string) (lines : list string) :
  endsWithLF p -> Forall endsWithLF lines -> endsWithLF (p +:+ appendAll lines).
Proof.
  intros Hp Hall. revert p Hp.
  induction Hall as [|x lines Hx Hall IH]; intros p Hp.
  - unfold appendAll. cbn [foldr]. by rewrite append_nil_r.
  - unfold appendAll. cbn [foldr]. fold (appendAll lines).
    rewrite <- append_assoc. apply IH. by apply endsWithLF_append.
Qed.

Lemma yamlNext_ends tw col tid : yamlNext tw col tid = "" \/ endsWithLF (yamlNext tw col tid).
Proof.
  revert col. induction tid as [|var rest IH]; intros col; [by left |].
  right. cbn [yamlNext]. destruct (IH (S col)) as [-> | H].
  - rewrite append_nil_r, <- !append_assoc. apply endsWithLF_eol.
  - by apply endsWithLF_append.
Qed.

Lemma yamlRow_ends tw tid : hasCells tid = true -> endsWithLF (yamlRow tw tid).
Proof.
  destruct tid as [|var rest]; [done |]. intros _. cbn [yamlRow].
  destruct (yamlNext_ends tw 1 rest) as [-> | H].
  - rewrite append_nil_r, <- !append_assoc. apply endsWithLF_eol.
  - by apply endsWithLF_append.
Qed.

Lemma Forall_dataRows dlg (P : list QVariant -> Prop) :
  (forall tid, hasCells tid = true -> P tid) -> Forall P (dataRows dlg).
Proof.
  intros H. apply List.Forall_forall. intros tid Hin.
  apply filter_In in Hin as [_ Hcells]. by apply H.
Qed.

(** The YAML output for any title. *)
Lemma getTreeAsString_yaml_any dlg :
  exists yaml_header,
    endsWithLF yaml_header
    /\ getTreeAsString dlg ST_FORMAT_YAML
       = Some (("---" +:+ eol) +:+ yaml_header
               +:+ appendAll (map (yamlRow (statsTreeWidget dlg)) (dataRows dlg))).
Proof.
  set (template := "Description: " +:+ quoted_template +:+ eol
                   +:+ "File: " +:+ str1 DQUOTE +:+ "%2" +:+ str1 DQUOTE +:+ eol
                   +:+ "Items:").
  exists (arg (arg template (windowSubtitle dlg) 0) (fileName dlg) 0 +:+ eol).
  split; [apply endsWithLF_eol |].
  unfold getTreeAsString, header. cbn [mbind option_bind].
  rewrite (dataLoop_spec dlg ST_FORMAT_YAML [] (yamlRow (statsTreeWidget dlg)))
    by (intros; apply dataLine_yaml).
  cbn [mbind option_bind]. f_equal.
  change ("Description: " +:+ quoted_template +:+ eol
          +:+ "File: " +:+ str1 DQUOTE +:+ "%2" +:+ str1 DQUOTE +:+ eol
          +:+ "Items:" +:+ eol) with (template +:+ eol).
  rewrite !arg_snoc_eol. unfold dataRows, rowsOf.
  by rewrite append_nil_r, !append_assoc.
Qed.

Lemma endsWithLF_nonempty (lines : list string) :
  lines <> [] -> Forall endsWithLF lines -> endsWithLF (appendAll lines).
Proof.
  intros Hne Hall. destruct Hall as [|x lines Hx Hall]; [done |].
  unfold appendAll. cbn [foldr]. fold (appendAll lines).
  by apply endsWithLF_lines.
Qed.

(** In each of the four formats, for every tree, title and file name,
    the serializer gives an output.  The output ends with a line feed;
    in the CSV format, whose header row is appended as a C string, it
    does so when a row with a cell follows the header row or no header
    label holds a zero character.  In the YAML format the output starts
    with the line of three dashes, whatever the title holds. *)
Theorem output_ends_with_line_feed dlg format :
  exists out,
    getTreeAsString dlg format = Some out
    /\ ((format = ST_FORMAT_CSV ->
         dataRows dlg <> []
         \/ Forall (fun label => contains Ascii.zero label = false)
              (headerLabels (statsTreeWidget dlg))) ->
        endsWithLF out)
    /\ (format = ST_FORMAT_YAML -> exists rest, out = "---" +:+ eol +:+ rest).
Proof.
  destruct format.
  - eexists. split; [apply getTreeAsString_plain |]. split; [intros _ | done].
    do 5 apply endsWithLF_append. apply endsWithLF_eol.
  - eexists. split; [apply getTreeAsString_csv |]. split; [| done].
    assert (Hrows : Forall endsWithLF (map csvRow (dataRows dlg))).
    { apply List.Forall_map, Forall_dataRows. intros tid _. apply endsWithLF_eol. }
    intros Hcsv. destruct (Hcsv eq_refl) as [Hne | Hall].
    + apply endsWithLF_append, endsWithLF_nonempty; [| done].
      by destruct (dataRows dlg).
    + rewrite (csv_header_row_whole _ Hall).
      apply endsWithLF_lines; [apply endsWithLF_eol | done].
  - eexists. split; [apply getTreeAsString_xml |]. split; [intros _ | done].
    do 6 apply endsWithLF_append. rewrite <- !append_assoc. apply endsWithLF_eol.
  - destruct (getTreeAsString_yaml_any dlg) as (yaml_header & Hends & ->).
    eexists. split; [reflexivity |]. split.
    + intros _. rewrite <- append_assoc. apply endsWithLF_lines.
      * by apply endsWithLF_append.
      * apply List.Forall_map, Forall_dataRows. intros tid. apply yamlRow_ends.
    + intros _. eexists. rewrite append_assoc. reflexivity.
Qed.

(** ** What the width pass gives the plain format *)

Lemma fold_left_max_elem (l : list Z) (a x : Z) : x ∈ l -> x <= fold_left Z.max l a.
Proof.
  revert a. induction l as [|y l IH]; intros a Hx; [by apply elem_of_nil in Hx |].
  cbn [fold_left]. apply elem_of_cons in Hx as [-> | Hx].
  - pose proof (fold_left_max_le l (Z.max a y)). lia.
  - by apply IH.
Qed.

Lemma length_itemDataToPlain var (width : Z) :
  QString.length (itemDataToPlain var width)
  = Z.max width (QString.length (plainText var)).
Proof.
  rewrite itemDataToPlain_aligned.
  unfold alignedCell, leftAligned, rightAligned, spaces.
  pose proof (length_nonneg (plainText var)) as Hpos.
  destruct (Z.le_gt_cases width (QString.length (plainText var))) as [Hle | Hgt].
  - rewrite fill_nonpos by lia.
    destruct (isString var); rewrite ?append_nil_r, ?append_nil_l; lia.
  - destruct (isString var); rewrite length_append, length_fill by lia; lia.
Qed.

(** The width pass makes every column as wide as its longest string
    cell, so the second pass gives a string cell exactly the width of its
    column; a cell of another type takes the width of its column or the
    length of its own text, whichever is larger, and so can stand out of
    its column. *)
Theorem string_cells_fill_their_column dlg :
  exists col_widths,
    widthPass dlg (visibleItems (statsTreeWidget dlg)) [] = Some col_widths
    /\ (forall tid i s,
          tid ∈ rowsOf dlg -> tid !! i = Some (VString s) ->
          exists width,
            col_widths !! i = Some width
            /\ QString.length s <= width
            /\ QString.length (itemDataToPlain (VString s) width) = width)
    /\ (forall var width,
          QString.length (itemDataToPlain var width)
          = Z.max width (QString.length (plainText var))).
Proof.
  exists (specWidths (statsTreeWidget dlg) (rowsOf dlg)).
  split; [apply widthPass_spec |]. split; [| apply length_itemDataToPlain].
  intros tid i s Hin Hcell.
  exists (widthAt (statsTreeWidget dlg) i (rowsOf dlg)).
  assert (Hle : QString.length s <= widthAt (statsTreeWidget dlg) i (rowsOf dlg)).
  { unfold widthAt. apply fold_left_max_elem. apply list_elem_of_omap.
    exists tid. split; [done |]. unfold stringLengthAt. by rewrite Hcell. }
  split; [| split; [exact Hle |]].
  - rewrite specWidths_lookup. rewrite decide_True; [done |].
    pose proof (maxCells_ge _ _ Hin). apply lookup_lt_Some in Hcell. lia.
  - rewrite length_itemDataToPlain. cbn [plainText toString]. lia.
Qed.

(** ** Commas in the cells of a CSV line *)

Lemma countChar_append c s1 s2 :
  countChar c (s1 +:+ s2) = (countChar c s1 + countChar c s2)%nat.
Proof.
  induction s1 as [|a s1 IH]; [done |].
  rewrite append_cons. cbn [countChar]. rewrite IH. lia.
Qed.

Lemma length_splitOn sep s : length (splitOn sep s) = S (countChar sep s).
Proof.
  induction s as [|a s IH]; [done |]. cbn [splitOn countChar].
  destruct (Stdlib.Strings.Ascii.eqb a sep).
  - cbn [length]. by rewrite IH.
  - destruct (splitOn sep s) as [|field fields]; [discriminate IH |].
    cbn [length] in *. lia.
Qed.

Lemma countChar_csvCell var :
  countChar "," (csvCell var) = countChar "," (toString var).
Proof.
  unfold csvCell, quoted. destruct (isString var); [| done].
  rewrite !countChar_append. cbn. lia.
Qed.

Lemma countChar_csv_line tid :
  hasCells tid = true ->
  S (countChar "," (join "," (map csvCell tid))) = (length tid + commasIn tid)%nat.
Proof.
  induction tid as [|var rest IH]; [done |]. intros _.
  destruct rest as [|var' rest'].
  - cbn [map join String.concat commasIn foldr length].
    rewrite countChar_csvCell. lia.
  - specialize (IH eq_refl). unfold join in *.
    change (String.concat "," (map csvCell (var :: var' :: rest')))
      with (csvCell var +:+ "," +:+ String.concat "," (map csvCell (var' :: rest'))).
    rewrite !countChar_append, countChar_csvCell.
    change (countChar "," ",") with 1%nat.
    cbn [commasIn foldr length] in *. lia.
Qed.

(** The CSV format does not escape: the line that [dataLine] gives for a
    row with a cell, cut at its commas, has as many fields as the row has
    cells plus one more for every comma in the text of a cell.  So a line
    has one field for each cell exactly when no text of the row holds a
    comma. *)
Theorem csv_fields_count_commas tw col_widths tid :
  hasCells tid = true ->
  exists line,
    dataLine tw ST_FORMAT_CSV col_widths tid = Some line
    /\ length (splitOn "," line) = (length tid + commasIn tid)%nat
    /\ (length (splitOn "," line) = length tid
        <-> Forall (fun var => contains "," (toString var) = false) tid).
Proof.
  intros Hcells. eexists. split; [reflexivity |].
  rewrite length_splitOn, countChar_append.
  change (countChar "," eol) with 0%nat. rewrite Nat.add_0_r.
  assert (map csvField tid = map csvCell tid) as ->
    by (apply map_ext; intros var; apply csvField_cell).
  rewrite (countChar_csv_line tid Hcells).
  split; [done |].
  assert (Hzero : forall s, countChar "," s = 0%nat <-> contains "," s = false).
  { induction s as [|a s IH]; [done |]. cbn [countChar contains].
    destruct (Stdlib.Strings.Ascii.eqb a ","); cbn [orb]; [split; [lia | done] |].
    by rewrite Nat.add_0_l. }
  clear Hcells. induction tid as [|var rest IH].
  - split; [constructor | done].
  - cbn [commasIn foldr length]. fold (commasIn rest). split.
    + intros H. constructor; [apply Hzero; lia | apply IH; lia].
    + intros H. inversion H as [|? ? Hvar Hrest]; subst.
      apply Hzero in Hvar. apply IH in Hrest. lia.
Qed.

(** ** The entry of a cell tells its text *)

Lemma append_inj_r (a b t : string) : a +:+ t = b +:+ t -> a = b.
Proof.
  revert b. induction a as [|c a IH]; intros b H.
  - destruct b as [|d b]; [done |].
    apply (f_equal QString.length) in H. rewrite append_nil_l, length_append in H.
    unfold QString.length in H at 2. cbn [String.length] in H.
    pose proof (length_nonneg b). unfold QString.length in *. lia.
  - destruct b as [|d b].
    + apply (f_equal QString.length) in H. rewrite append_nil_l, length_append in H.
      unfold QString.length in H at 1. cbn [String.length] in H.
      pose proof (length_nonneg a). unfold QString.length in *. lia.
    + rewrite !append_cons in H. injection H as -> H. f_equal. by apply IH.
Qed.

Lemma append_inj_l (p a b : string) : p +:+ a = p +:+ b -> a = b.
Proof.
  induction p as [|c p IH]; [done |]. rewrite !append_cons. intros H.
  injection H as H. by apply IH.
Qed.

Lemma escapeChar_cases (c : ascii) :
  (c = "<"%char /\ escapeChar c = "&lt;")
  \/ (c = ">"%char /\ escapeChar c = "&gt;")
  \/ (c = "&"%char /\ escapeChar c = "&amp;")
  \/ (c = DQUOTE /\ escapeChar c = "&quot;")
  \/ (c <> "&"%char /\ escapeChar c = str1 c).
Proof.
  unfold escapeChar.
  destruct (Stdlib.Strings.Ascii.eqb_spec c "<"); [by left |].
  destruct (Stdlib.Strings.Ascii.eqb_spec c ">"); [by right; left |].
  destruct (Stdlib.Strings.Ascii.eqb_spec c "&"); [by right; right; left |].
  destruct (Stdlib.Strings.Ascii.eqb_spec c DQUOTE); [by right; right; right; left |].
  by right; right; right; right.
Qed.

Lemma toHtmlEscaped_inj (s1 s2 : string) :
  toHtmlEscaped s1 = toHtmlEscaped s2 -> s1 = s2.
Proof.
  revert s2. induction s1 as [|c1 s1 IH]; intros s2 H.
  - destruct s2 as [|c2 s2]; [done |]. cbn [toHtmlEscaped] in H.
    destruct (escapeChar_cases c2) as [[_ E]|[[_ E]|[[_ E]|[[_ E]|[_ E]]]]];
      rewrite E in H; discriminate H.
  - destruct s2 as [|c2 s2]; cbn [toHtmlEscaped] in H.
    + destruct (escapeChar_cases c1) as [[_ E]|[[_ E]|[[_ E]|[[_ E]|[_ E]]]]];
        rewrite E in H; discriminate H.
    + destruct (escapeChar_cases c1) as [[-> E1]|[[-> E1]|[[-> E1]|[[-> E1]|[N1 E1]]]]];
      destruct (escapeChar_cases c2) as [[-> E2]|[[-> E2]|[[-> E2]|[[-> E2]|[N2 E2]]]]];
        rewrite ?E1, ?E2 in H; unfold str1 in H;
        repeat rewrite append_cons in H; rewrite ?append_nil_l in H;
        try discriminate H;
        try (injection H as H; f_equal; by apply IH);
        try (injection H as -> H; f_equal; by apply IH);
        try (injection H as Hc _; congruence).
Qed.

(** Escaping loses nothing: two cells with the same [entry] element in
    the XML output have the same text. *)
Theorem xml_entry_tells_text var1 var2 :
  xmlEntry var1 = xmlEntry var2 -> toString var1 = toString var2.
Proof.
  unfold xmlEntry. rewrite !arg_entry. intros H.
  apply append_inj_l, append_inj_r in H. by apply toHtmlEscaped_inj.
Qed.

(** ** A place marker in the title of the YAML format *)




(** * Properties of the other slots *)

(** ** The registry and the statistics menu *)

(** Every call of [registerDialog] adds one entry of the statistics menu,
    also when the key is registered already, so the menu has one action
    for each registration while the hash has one creator for each key;
    and the key that an action carries is always a key of the hash, so
    [showTapParameterStatistics] gives a dialog for every action of the
    menu. *)
Theorem menu_actions_can_be_shown (rs : list registration) parent cf arg :
  let reg := registerAll rs emptyRegistry in
  length (statisticsGroupItems reg) = length rs
  /\ length (stat_tap_uis reg) = length rs
  /\ (forall ui, ui ∈ stat_tap_uis reg -> nparams ui = 0)
  /\ (size (cfg_str_to_creator_ reg) <= length rs)%nat
  /\ (forall item, item ∈ statisticsGroupItems reg ->
        is_Some (showTapParameterStatistics reg parent cf (data item.2) arg)).
Proof.
  induction rs as [|r rs IH] using rev_ind.
  { cbn. repeat split; try done; try lia.
    - intros ui H. by apply elem_of_nil in H.
    - intros item H. by apply elem_of_nil in H. }
  cbn zeta in *. rewrite registerAll_snoc.
  destruct IH as (Hitems & Huis & Hparams & Hsize & Hshow).
  set (reg := registerAll rs emptyRegistry) in *.
  unfold registerOne, registerDialog.
  cbn [statisticsGroupItems stat_tap_uis cfg_str_to_creator_].
  rewrite !length_app, Hitems, Huis. cbn [length].
  split; [lia |]. split; [lia |]. split; [| split].
  - intros ui [Hui | ->%list_elem_of_singleton]%elem_of_app; [by apply Hparams | done].
  - destruct (cfg_str_to_creator_ reg !! r_cfg_abbr r) eqn:E.
    + rewrite map_size_insert_Some by eauto. lia.
    + rewrite map_size_insert_None by done. lia.
  - intros item Hitem. rewrite show_lookup. cbn [cfg_str_to_creator_].
    apply fmap_is_Some, lookup_insert_is_Some'.
    apply elem_of_app in Hitem as [Hitem | ->%list_elem_of_singleton]; [| by left].
    right. specialize (Hshow item Hitem). rewrite show_lookup in Hshow.
    by apply fmap_is_Some in Hshow.
Qed.

(** [registerDialog] touches one key only and there is no way to take a
    key out: a registration leaves the answer of
    [showTapParameterStatistics] for every other key as it was, and a key
    that has a creator keeps one through any run of registrations. *)
Theorem registration_keeps_other_keys (reg : Registry) parent cf key arg :
  (forall title cfg_abbr group tap_init_cb (creator : tpdCreator),
      cfg_abbr <> key ->
      showTapParameterStatistics
        (registerDialog title cfg_abbr group tap_init_cb creator reg) parent cf key arg
      = showTapParameterStatistics reg parent cf key arg)
  /\ (forall rs,
        is_Some (showTapParameterStatistics reg parent cf key arg) ->
        is_Some (showTapParameterStatistics (registerAll rs reg) parent cf key arg)).
Proof.
  split.
  - intros title cfg_abbr group tap_init_cb creator Hne.
    rewrite !show_lookup. unfold registerDialog. cbn [cfg_str_to_creator_].
    by rewrite lookup_insert_ne.
  - intros rs Hreg. rewrite show_registerAll.
    by destruct (last (filter (fun r => r_cfg_abbr r = key) rs)).
Qed.

(** ** The file name and the format of a saved file *)

Lemma eqbCI_refl (a : ascii) : eqbCI a a = true.
Proof. unfold eqbCI. apply Stdlib.Strings.Ascii.eqb_refl. Qed.

Lemma eqbCI_trans_l (a b p : ascii) : eqbCI a b = true -> eqbCI a p = eqbCI b p.
Proof. unfold eqbCI. intros H%Stdlib.Strings.Ascii.eqb_eq. by rewrite H. Qed.

Lemma startsWithCI_refl (t : string) : startsWithCI t t = true.
Proof. induction t as [|a t IH]; [done |]. cbn [startsWithCI]. by rewrite eqbCI_refl, IH. Qed.

Lemma startsWithCI_equalCI (s t prefix : string) :
  equalCI s t = true -> startsWithCI s prefix = startsWithCI t prefix.
Proof.
  revert s t. induction prefix as [|p prefix IH]; intros s t H; [done |].
  destruct s as [|a s], t as [|b t]; try done. cbn [equalCI] in H.
  apply andb_true_iff in H as [Hab Hst]. cbn [startsWithCI].
  by rewrite (eqbCI_trans_l a b p Hab), (IH s t Hst).
Qed.

Lemma containsCI_equalCI (s t needle : string) :
  equalCI s t = true -> containsCI s needle = containsCI t needle.
Proof.
  revert t. induction s as [|a s IH]; intros t H.
  - by destruct t.
  - destruct t as [|b t]; [done |]. pose proof H as H'. cbn [equalCI] in H'.
    apply andb_true_iff in H' as [_ Hst]. cbn [containsCI].
    by rewrite (startsWithCI_equalCI _ _ needle H), (IH t Hst).
Qed.

Lemma length_append_nat (s t : string) :
  String.length (s +:+ t) = (String.length s + String.length t)%nat.
Proof.
  induction s as [|a s IH]; [done |]. rewrite append_cons. cbn [String.length]. by rewrite IH.
Qed.

Lemma substring_whole (t : string) : String.substring 0 (String.length t) t = t.
Proof. induction t as [|a t IH]; [done |]. cbn [String.length String.substring]. by rewrite IH. Qed.

Lemma substring_end (s t : string) :
  String.substring (String.length s) (String.length t) (s +:+ t) = t.
Proof.
  induction s as [|a s IH]; [apply substring_whole |].
  rewrite append_cons. cbn [String.length String.substring]. exact IH.
Qed.

Lemma endsWithCI_append (s ext : string) : endsWithCI (s +:+ ext) ext = true.
Proof.
  unfold endsWithCI. rewrite length_append_nat.
  replace (String.length s + String.length ext - String.length ext)%nat
    with (String.length s) by lia.
  rewrite substring_end, startsWithCI_refl, andb_true_r. apply Nat.leb_le. lia.
Qed.

Lemma selectFormat_extension (selectedFilter : string) :
  (selectFormat selectedFilter).2 = extensionOf (selectFormat selectedFilter).1.
Proof. unfold selectFormat. by repeat destruct (containsCI _ _). Qed.

(** Each of the four name filters that the dialog offers selects its own
    format and extension, and the choice does not depend on the case of
    the letters of the selected filter. *)
Theorem name_filters_select_their_format :
  (forall format, selectFormat (nameFilterOf format) = (format, extensionOf format))
  /\ (forall filter1 filter2,
        equalCI filter1 filter2 = true -> selectFormat filter1 = selectFormat filter2).
Proof.
  split.
  - intros []; vm_compute; reflexivity.
  - intros filter1 filter2 H. unfold selectFormat.
    by rewrite !(containsCI_equalCI filter1 filter2 _ H).
Qed.

(** The saved file always has the extension of its format, in capital or
    small letters: the name is the chosen name when that ends with the
    extension already, and the chosen name with the extension after it
    otherwise, so adding the extension twice changes nothing. *)
Theorem saved_name_has_extension (file_name file_ext : string) :
  endsWithCI (withExtension file_name file_ext) file_ext = true
  /\ (endsWithCI file_name file_ext = true -> withExtension file_name file_ext = file_name)
  /\ (endsWithCI file_name file_ext = false ->
      withExtension file_name file_ext = file_name +:+ file_ext)
  /\ withExtension (withExtension file_name file_ext) file_ext
     = withExtension file_name file_ext.
Proof.
  assert (H1 : endsWithCI (withExtension file_name file_ext) file_ext = true).
  { unfold withExtension. destruct (endsWithCI file_name file_ext) eqn:E; cbn [negb];
      [done | apply endsWithCI_append]. }
  split; [exact H1 |]. split; [| split].
  - intros H. unfold withExtension. by rewrite H.
  - intros H. unfold withExtension. by rewrite H.
  - unfold withExtension at 1. by rewrite H1.
Qed.

(** ** What saving and copying do *)

Lemma arg_error_saving (file_name : string) :
  arg "Error saving file %1" file_name 0 = "Error saving file " +:+ file_name.
Proof. template ("Error saving file " +:+ pad file_name 0 +:+ ""). Qed.

Lemma getTreeAsString_total dlg format : is_Some (getTreeAsString dlg format).
Proof. destruct (output_ends_with_line_feed dlg format) as (out & -> & _). by eexists. Qed.

Lemma saveAs_accepted dlg (SaveAsDialog : QFileDialog) (libc : Answers) chosen others out :
  exec SaveAsDialog = true ->
  selectedFiles SaveAsDialog = chosen :: others ->
  getTreeAsString dlg (selectFormat (selectedNameFilter SaveAsDialog)).1 = Some out ->
  on_actionSaveAs_triggered dlg SaveAsDialog libc
  = Some (ws_fopen (withExtension chosen
                      (extensionOf (selectFormat (selectedNameFilter SaveAsDialog)).1)) "w"
          :: (if fopen_gives_file libc then [fputs (cString out); fclose] else [])
          ++ (if fopen_gives_file libc && fputs_succeeds libc then []
              else [QMessageBox_warning
                      ("Error saving file "
                       +:+ withExtension chosen
                             (extensionOf (selectFormat (selectedNameFilter SaveAsDialog)).1))
                      (if fopen_gives_file libc then errno_after_fputs libc
                       else errno_after_fopen libc)])).
Proof.
  intros Hexec Hfiles Hout.
  unfold on_actionSaveAs_triggered. rewrite Hexec, Hfiles. cbn [negb].
  rewrite <- (selectFormat_extension (selectedNameFilter SaveAsDialog)).
  destruct (selectFormat (selectedNameFilter SaveAsDialog)) as [fmt ext].
  cbn [fst snd] in *. cbn [lookup list_lookup mbind option_bind].
  rewrite Hout. cbn [mbind option_bind]. rewrite arg_error_saving.
  destruct (fopen_gives_file libc), (fputs_succeeds libc); reflexivity.
Qed.


(** Copying puts on the clipboard the text that saving in the plain
    format writes to the file: both take the plain output up to its
    first zero byte. *)
Theorem copy_is_plain_save dlg (SaveAsDialog : QFileDialog) (libc : Answers) :
  exec SaveAsDialog = true ->
  selectedFiles SaveAsDialog <> [] ->
  (selectFormat (selectedNameFilter SaveAsDialog)).1 = ST_FORMAT_PLAIN ->
  fopen_gives_file libc = true ->
  exists text calls,
    on_actionCopyToClipboard_triggered dlg = Some [clipboard_setText text]
    /\ on_actionSaveAs_triggered dlg SaveAsDialog libc = Some calls
    /\ fputs text ∈ calls.
Proof.
  intros Hexec Hfiles Hplain Hopen.
  destruct (selectedFiles SaveAsDialog) as [|chosen others] eqn:E; [done |].
  destruct (getTreeAsString_total dlg ST_FORMAT_PLAIN) as [out Hout].
  exists (cString out). eexists. split; [| split].
  - unfold on_actionCopyToClipboard_triggered. by rewrite Hout.
  - apply saveAs_accepted with (others := others); [done | done |].
    rewrite Hplain. exact Hout.
  - rewrite Hopen. cbn [app]. apply list_elem_of_further, list_elem_of_here.
Qed.

(** ** The help button *)

(** The constructor hides the help button exactly for the help topics
    for which [on_buttonBox_helpRequested] does nothing: a help button
    that is shown always opens its topic. *)
Theorem help_button_shown_iff_topic (parent_width parent_height help_topic : Z) :
  (help_button_hidden (newTapParameterDialog parent_width parent_height help_topic) = false
   <-> on_buttonBox_helpRequested help_topic = [helpTopicAction help_topic])
  /\ (help_button_hidden (newTapParameterDialog parent_width parent_height help_topic) = true
      <-> on_buttonBox_helpRequested help_topic = []).
Proof.
  unfold newTapParameterDialog, on_buttonBox_helpRequested. cbn [help_button_hidden].
  destruct (Z.ltb_spec help_topic 1), (Z.ltb_spec 0 help_topic); try lia;
    split; split; intros; done.
Qed.

(** ** The size of the dialog *)

Lemma wrap32_small (z : Z) : - 2 ^ 31 <= z < 2 ^ 31 -> wrap32 z = z.
Proof. intros H. unfold wrap32. rewrite Z.mod_small by lia. lia. Qed.

(** For a parent whose doubled width and tripled height are in the range
    of an [int], the dialog gets two thirds of the width and three
    quarters of the height of its parent, rounded down: it is never
    larger than its parent. *)
Theorem dialog_fits_its_parent (parent_width parent_height help_topic : Z) :
  0 <= parent_width -> parent_width * 2 < 2 ^ 31 ->
  0 <= parent_height -> parent_height * 3 < 2 ^ 31 ->
  let size := dialog_size (newTapParameterDialog parent_width parent_height help_topic) in
  size = (parent_width * 2 / 3, parent_height * 3 / 4)
  /\ 0 <= size.1 <= parent_width
  /\ 0 <= size.2 <= parent_height.
Proof.
  intros Hw0 Hw Hh0 Hh. unfold newTapParameterDialog. cbn [dialog_size].
  unfold int_mul, int_div. rewrite !wrap32_small by lia.
  rewrite !Z.quot_div_nonneg by lia. cbn [fst snd].
  split; [done |]. split.
  - split; [apply Z.div_pos; lia |]. apply Z.div_le_upper_bound; lia.
  - split; [apply Z.div_pos; lia |]. apply Z.div_le_upper_bound; lia.
Qed.

(** ** The filter actions *)

(** [contextMenuEvent] gives all filter actions the same state, and it
    enables them exactly for the filter expressions for which
    [filterActionTriggered] emits the signal: an action that is enabled
    always emits [filterAction] with the expression and what the action
    carries, and a sender that is no filter action emits nothing. *)
Theorem enabled_filter_actions_emit {QAction_ : Type} (filter_actions_ : list QAction_)
    (fa : FilterAction) (filter_expr : string) :
  let enable := 0 <? QString.length filter_expr in
  (forall item, item ∈ contextMenuEvent filter_actions_ filter_expr -> item.2 = enable)
  /\ map fst (contextMenuEvent filter_actions_ filter_expr) = filter_actions_
  /\ (enable = true ->
      filterActionTriggered (Some fa) filter_expr
      = [filterAction filter_expr (action fa) (actionType fa)])
  /\ (enable = false -> filterActionTriggered (Some fa) filter_expr = [])
  /\ filterActionTriggered None filter_expr = [].
Proof.
  intros enable. unfold contextMenuEvent. fold enable.
  split; [| split; [| split; [| split]]].
  - intros item (x & -> & _)%list_elem_of_fmap. done.
  - rewrite map_map. apply map_id.
  - subst enable. destruct filter_expr; [done |]. done.
  - subst enable. destruct filter_expr as [|c rest]; [done |].
    unfold QString.length. cbn [String.length]. intros H%Z.ltb_ge. lia.
  - done.
Qed.

(** ** Runs of the filter slots *)

Lemma run_app (ui : Ui) (events1 events2 : list event) :
  run ui (events1 ++ events2)
  = let '(ui1, out1) := run ui events1 in
    let '(ui2, out2) := run ui1 events2 in
    (ui2, out1 ++ out2).
Proof.
  revert ui. induction events1 as [|e events1 IH]; intros ui; cbn [app run].
  - by destruct (run ui events2).
  - destruct (step ui e) as [ui1 out1]. rewrite IH.
    destruct (run ui1 events1) as [ui2 out2], (run ui2 events2) as [ui3 out3].
    by rewrite app_assoc.
Qed.

(** Over any run of events the tree is refilled once for each show event
    and each click on the apply button and never else; every
    [updateFilter] is emitted with the force flag; no slot enables the
    filter line or the apply button again, so after [updateWidgets] has
    seen the file closed both stay disabled; and the text of the filter
    line changes only by [setDisplayFilter]. *)
Theorem filter_slots_over_runs (events : list event) (ui : Ui) :
  length (List.filter isFillTree (run ui events).2)
  = length (List.filter refills events)
  /\ (forall filter force, updateFilter filter force ∈ (run ui events).2 -> force = true)
  /\ (displayFilterEnabled ui = false -> displayFilterEnabled (run ui events).1 = false)
  /\ (applyFilterEnabled ui = false -> applyFilterEnabled (run ui events).1 = false)
  /\ (UpdateWidgets true ∈ events ->
      displayFilterEnabled (run ui events).1 = false
      /\ applyFilterEnabled (run ui events).1 = false)
  /\ ((forall filter, SetDisplayFilter filter ∉ events) ->
      displayFilterText (run ui events).1 = displayFilterText ui).
Proof.
  revert ui. induction events as [|e events IH]; intros ui.
  { cbn [run fst snd List.filter length].
    split; [done |]. split; [intros f force H; by apply elem_of_nil in H |].
    split; [done |]. split; [done |].
    split; [intros H; by apply elem_of_nil in H | done]. }
  cbn [run]. destruct (step ui e) as [ui1 out1] eqn:Estep.
  destruct (run ui1 events) as [ui2 out2] eqn:Erun.
  destruct (IH ui1) as (Hfill & Hforce & Hline & Happly & Hclosed & Htext).
  rewrite Erun in *. cbn [fst snd] in *.
  assert (Hstep : length (List.filter isFillTree out1) = (if refills e then 1 else 0)%nat
                  /\ (forall filter force, updateFilter filter force ∈ out1 -> force = true)
                  /\ (displayFilterEnabled ui = false -> displayFilterEnabled ui1 = false)
                  /\ (applyFilterEnabled ui = false -> applyFilterEnabled ui1 = false)
                  /\ (e = UpdateWidgets true ->
                      displayFilterEnabled ui1 = false /\ applyFilterEnabled ui1 = false)
                  /\ ((forall filter, e <> SetDisplayFilter filter) ->
                      displayFilterText ui1 = displayFilterText ui)).
  { assert (Hin : forall (l : list emitted) f force,
              Forall (fun x => match x with updateFilter _ b => b = true | _ => True end) l ->
              updateFilter f force ∈ l -> force = true).
    { intros l f force Hall Hf. rewrite Forall_forall in Hall. exact (Hall _ Hf). }
    destruct e as [filter | | | closed]; cbn [step] in Estep;
      injection Estep as <- <-; cbn [refills].
    - split; [done |]. split; [intros f force; by apply Hin |].
      split; [done |]. split; [done |]. split; [done |].
      intros H. by destruct (H filter).
    - unfold showEvent. destruct (isEmpty (displayFilterText ui)); cbn [negb app];
        (split; [done |]); (split; [intros f force; apply Hin; by repeat constructor |]);
        done.
    - unfold on_applyFilterButton_clicked.
      split; [done |]. split; [intros f force; apply Hin; by repeat constructor |]. done.
    - unfold updateWidgets. destruct closed; cbn [displayFilterEnabled applyFilterEnabled
        displayFilterText List.filter length];
        (split; [done |]); (split; [intros f force; by apply Hin |]); done. }
  destruct Hstep as (Sfill & Sforce & Sline & Sapply & Sclosed & Stext).
  split; [| split; [| split; [| split; [| split]]]].
  - rewrite List.filter_app, length_app, Sfill, Hfill. cbn [List.filter].
    destruct (refills e); cbn [length]; lia.
  - intros filter force [H | H]%elem_of_app; [by eapply Sforce | by eapply Hforce].
  - intros H. by apply Hline, Sline.
  - intros H. by apply Happly, Sapply.
  - intros [<- | H]%elem_of_cons.
    + destruct (Sclosed eq_refl) as [Hl Ha]. split; [by apply Hline | by apply Happly].
    + by apply Hclosed.
  - intros Hno. rewrite Htext.
    + apply Stext. intros filter ->. apply (Hno filter), list_elem_of_here.
    + intros filter H. apply (Hno filter). by apply list_elem_of_further.
Qed.

End Dialog.

(** * Reports worked out *)

Abbreviation serialize :=
  (getTreeAsString (fst : number -> string) (snd : number -> string)).

Example plain_demo :
  serialize report_demo ST_FORMAT_PLAIN
  = Some ("===========" +:+ eol
          +:+ "Demo - cap.pcap:" +:+ eol
          +:+ "Name  Count" +:+ eol
          +:+ "-----------" +:+ eol
          +:+ "alice      3" +:+ eol
          +:+ "bob       15" +:+ eol
          +:+ "-----------" +:+ eol).
Proof. vm_compute. reflexivity. Qed.

(** A column of numbers keeps the width of its label, however many digits
    a number has; a row without cells changes nothing. *)
Example widths_protocols :
  widthPass (fst : number -> string) snd report_protocols
    (visibleItems (statsTreeWidget report_protocols)) []
  = Some [8; 7].
Proof. vm_compute. reflexivity. Qed.

Example plain_protocols :
  serialize report_protocols ST_FORMAT_PLAIN
  = Some ("=================" +:+ eol
          +:+ "Protocols - cap.pcap:" +:+ eol
          +:+ "Protocol  Packets" +:+ eol
          +:+ "-----------------" +:+ eol
          +:+ "udp           120" +:+ eol
          +:+ "tcp       1234567890" +:+ eol
          +:+ "-----------------" +:+ eol).
Proof. vm_compute. reflexivity. Qed.

Example csv_demo :
  serialize report_demo ST_FORMAT_CSV
  = Some (quoted "Name" +:+ "," +:+ quoted "Count" +:+ eol
          +:+ quoted "alice" +:+ ",3" +:+ eol
          +:+ quoted "bob" +:+ ",15" +:+ eol).
Proof. vm_compute. reflexivity. Qed.

(** The CSV format copies a comma and a quote of a string cell as they
    are. *)
Example csv_not_escaped :
  csvCell (fst : number -> string) (VString ("a,b" +:+ str1 DQUOTE +:+ "c"))
  = str1 DQUOTE +:+ "a,b" +:+ str1 DQUOTE +:+ "c" +:+ str1 DQUOTE.
Proof. vm_compute. reflexivity. Qed.

(** The two calls of [arg] in a row: a place marker in the title takes
    the file name, and the marker of the [File:] line is left over. *)
Example yaml_title_place_marker :
  serialize report_marker ST_FORMAT_YAML
  = Some ("---" +:+ eol
          +:+ "Description: " +:+ quoted "cap.pcap" +:+ eol
          +:+ "File: " +:+ quoted "%2" +:+ eol
          +:+ "Items:" +:+ eol).
Proof. vm_compute. reflexivity. Qed.

(** A percent sign that starts no place marker, and a place marker
    numbered higher than 2, stay in the title of the YAML format. *)
Example yaml_title_percent_kept :
  serialize report_percent ST_FORMAT_YAML
  = Some ("---" +:+ eol
          +:+ "Description: " +:+ quoted "a%3b at 100%" +:+ eol
          +:+ "File: " +:+ quoted "cap.pcap" +:+ eol
          +:+ "Items:" +:+ eol
          +:+ "  - Name: " +:+ quoted "alice" +:+ eol
          +:+ "    Count: 3" +:+ eol)
  /\ collidingMarker "100%" = false
  /\ collidingMarker "load %CPU" = false
  /\ collidingMarker "%1" = true
  /\ collidingMarker "%L2" = true.
Proof. repeat split; vm_compute; reflexivity. Qed.

(** The header row of the CSV format is appended as a C string: a zero
    character in a label ends it, and with no row after it the output
    does not end with a line feed. *)
Example csv_header_cut_at_zero :
  serialize report_zero ST_FORMAT_CSV = Some (str1 DQUOTE +:+ "a").
Proof. vm_compute. reflexivity. Qed.

(** The width list grows with the cells that the rows have, not with the
    header: with two header columns and one row of one cell the width
    pass leaves one width, and the header line stops before the second
    label. *)
Example header_stops_at_longest_row :
  widthPass (fst : number -> string) snd report_short
    (visibleItems (statsTreeWidget report_short)) []
  = Some [1]
  /\ serialize report_short ST_FORMAT_PLAIN
     = Some ("=" +:+ eol
             +:+ "Short - cap.pcap:" +:+ eol
             +:+ "A" +:+ eol
             +:+ "-" +:+ eol
             +:+ "x" +:+ eol
             +:+ "-" +:+ eol).
Proof. split; vm_compute; reflexivity. Qed.

(** C4, counterexample.  The apostrophe is not escaped: the title, the
    header entry and the body entry hold it as it is, so it is not true
    that the XML output of every report is free of apostrophes. *)
Lemma xml_apostrophe_not_escaped :
  serialize report_apostrophe ST_FORMAT_XML
  = Some (xmlDeclaration
          +:+ "<table>" +:+ eol
          +:+ "<title>it's</title>" +:+ eol
          +:+ "<thead>" +:+ eol +:+ "<row>" +:+ eol
          +:+ "  <entry>it's</entry>" +:+ eol
          +:+ "</row>" +:+ eol +:+ "</thead>" +:+ eol
          +:+ "<tbody>" +:+ eol
          +:+ "<row>" +:+ eol
          +:+ "  <entry>it's</entry>" +:+ eol
          +:+ "</row>" +:+ eol
          +:+ "</tbody>" +:+ eol +:+ "</table>" +:+ eol)
  /\ ~ (forall (dlg : report) (out : string),
          serialize dlg ST_FORMAT_XML = Some out -> contains "'" out = false).
Proof.
  split; [vm_compute; reflexivity |].
  intros H. specialize (H report_apostrophe _ eq_refl).
  vm_compute in H. discriminate H.
Qed.

(** C5, counterexample.  The lines of a row start two spaces further to
    the right than the specification says: the output is not the one
    that follows its words. *)
Lemma yaml_rows_indented :
  serialize report_demo ST_FORMAT_YAML
  = Some ("---" +:+ eol
          +:+ "Description: " +:+ quoted "Demo" +:+ eol
          +:+ "File: " +:+ quoted "cap.pcap" +:+ eol
          +:+ "Items:" +:+ eol
          +:+ "  - Name: " +:+ quoted "alice" +:+ eol
          +:+ "    Count: 3" +:+ eol
          +:+ "  - Name: " +:+ quoted "bob" +:+ eol
          +:+ "    Count: 15" +:+ eol)
  /\ yaml_claimed fst report_demo
     = "---" +:+ eol
       +:+ "Description: " +:+ quoted "Demo" +:+ eol
       +:+ "File: " +:+ quoted "cap.pcap" +:+ eol
       +:+ "Items:" +:+ eol
       +:+ "- Name: " +:+ quoted "alice" +:+ eol
       +:+ "  Count: 3" +:+ eol
       +:+ "- Name: " +:+ quoted "bob" +:+ eol
       +:+ "  Count: 15" +:+ eol
  /\ serialize report_demo ST_FORMAT_YAML <> Some (yaml_claimed fst report_demo).
Proof.
  split; [vm_compute; reflexivity |].
  split; [vm_compute; reflexivity |].
  vm_compute. discriminate.
Qed.

(** The YAML theorem at a report whose title holds percent signs and the
    place marker [%3]: the title is copied as it is. *)
Lemma yaml_output_percent_title :
  collidingMarker (windowSubtitle report_percent) = false
  /\ serialize report_percent ST_FORMAT_YAML
     = Some (("---" +:+ eol)
             +:+ ("Description: " +:+ str1 DQUOTE +:+ "a%3b at 100%" +:+ str1 DQUOTE +:+ eol
                  +:+ "File: " +:+ str1 DQUOTE +:+ "cap.pcap" +:+ str1 DQUOTE +:+ eol
                  +:+ "Items:" +:+ eol)
             +:+ appendAll
                   (map (yamlRow fst (statsTreeWidget report_percent))
                      (dataRows report_percent))).
Proof.
  split; [reflexivity |].
  exact (proj1 (yaml_output fst snd report_percent eq_refl)).
Defined.

(** ** The theorems at the reports above *)

(** C1 at the report of protocols: its second column holds numbers only,
    of three and of ten digits, and keeps the seven characters of its
    label. *)
Lemma plain_column_widths_protocols :
  exists col_widths,
    widthPass (fst : number -> string) snd report_protocols
      (visibleItems (statsTreeWidget report_protocols)) [] = Some col_widths
    /\ columnWidth (statsTreeWidget report_protocols) col_widths 1 = 7.
Proof.
  destruct (plain_column_widths fst snd report_protocols)
    as (col_widths & Hrun & _ & _ & Hnumbers & _).
  exists col_widths. split; [exact Hrun |].
  apply (Hnumbers 1%nat). intros tid var Hin Hvar.
  apply list_elem_of_In in Hin.
  destruct Hin as [<- | [<- | [<- | []]]]; cbn in Hvar;
    first [discriminate Hvar | injection Hvar as <-; reflexivity].
Defined.


(** C6 at the report of protocols, whose second row has no cell. *)
Lemma rows_without_cells_skipped_protocols :
  serialize
    (mkReport ["Protocol"; "Packets"]
       [[VString "udp"; VInt 120]; [VString "tcp"; VInt 1234567890]]
       "Protocols" "cap.pcap") ST_FORMAT_PLAIN
  = serialize report_protocols ST_FORMAT_PLAIN.
Proof.
  exact (proj1 (proj2 (proj2
           (rows_without_cells_skipped fst snd report_protocols ST_FORMAT_PLAIN))
           [[VString "udp"; VInt 120]] [] [[VString "tcp"; VInt 1234567890]]
           eq_refl eq_refl)).
Defined.

(** C7 with two keys and the two creators, from the empty registry. *)
Lemma registry_last_write_wins_twice :
  showTapParameterStatistics
    (registerDialog "Second" "io,stat" tt tt creator_second
       (registerDialog "First" "io,stat" tt tt creator_first emptyRegistry))
    tt tt "io,stat" "udp"
  = Some (creator_second tt "io,stat" "udp" tt)
  /\ cfg_str_to_creator_
       (registerDialog "B" "b" tt tt creator_second
          (registerDialog "A" "a" tt tt creator_first emptyRegistry))
     = cfg_str_to_creator_
         (registerDialog "A" "a" tt tt creator_first
            (registerDialog "B" "b" tt tt creator_second emptyRegistry)).
Proof.
  pose proof (registry_last_write_wins
                (double := number) (QTreeWidgetItem := row)
                (register_stat_group_t := unit) (stat_tap_init_cb := unit)
                emptyRegistry tt tt "io,stat" "udp")
    as (Htwice & _ & _ & Horder).
  split.
  - exact (proj1 (Htwice "First" "Second" tt tt tt tt creator_first creator_second)).
  - refine (Horder "A" "B" "a" "b" tt tt tt tt creator_first creator_second _).
    discriminate.
Defined.

(** C8 at a key that the registry does not hold, and at one it holds. *)
Lemma show_unknown_or_created_once :
  showTapParameterStatistics
    (registerDialog "First" "io,stat" tt tt creator_first emptyRegistry)
    tt tt "conv,tcp" "udp" = None
  /\ showTapParameterStatistics
       (registerDialog "First" "io,stat" tt tt creator_first emptyRegistry)
       tt tt "io,stat" "udp" = Some (creator_first tt "io,stat" "udp" tt).
Proof.
  split.
  - refine (proj1 (show_unknown_or_created
                     (registerDialog "First" "io,stat" tt tt creator_first
                        (emptyRegistry (stat_tap_init_cb := unit)))
                     tt tt "conv,tcp" "udp") _).
    reflexivity.
  - refine (proj1 (proj2 (show_unknown_or_created
                     (registerDialog "First" "io,stat" tt tt creator_first
                        (emptyRegistry (stat_tap_init_cb := unit)))
                     tt tt "io,stat" "udp")) creator_first _).
    reflexivity.
Defined.

(** C10 at a report without rows: the header line and the separators are
    empty although the tree has a header label. *)
Lemma plain_header_columns_no_rows :
  serialize report_marker ST_FORMAT_PLAIN
  = Some (eol +:+ ("%1 - cap.pcap:" +:+ eol) +:+ eol +:+ eol +:+ eol).
Proof.
  exact (proj1 (proj2 (proj2 (plain_header_columns fst snd report_marker))) eq_refl).
Defined.

(** ** The further properties at the reports above *)

(** A row whose first cell holds a comma reads back with three fields. *)
Lemma csv_fields_count_commas_one :
  exists line,
    dataLine (fst : number -> string) snd (statsTreeWidget report_demo)
      ST_FORMAT_CSV [] [VString "a,b"; VInt 3] = Some line
    /\ length (splitOn "," line) = 3%nat.
Proof.
  destruct (csv_fields_count_commas fst snd (statsTreeWidget report_demo) []
              [VString "a,b"; VInt 3] eq_refl) as (line & Hline & Hcount & _).
  exists line. split; [exact Hline | exact Hcount].
Defined.

(** The number three and the string of the digit three have the same
    entry, and the same text. *)
Lemma xml_entry_tells_text_three :
  toString (fst : number -> string) (VInt 3)
  = toString (fst : number -> string) (VString "3").
Proof.
  exact (xml_entry_tells_text (fst : number -> string) (VInt 3) (VString "3") eq_refl).
Defined.


(** Copying and saving the report of the specification as plain text. *)
Lemma copy_is_plain_save_demo :
  exists text calls,
    on_actionCopyToClipboard_triggered fst snd report_demo
    = Some [clipboard_setText text]
    /\ on_actionSaveAs_triggered fst snd report_demo
         {| exec := true;
            selectedNameFilter := "Plain text file (*.txt)";
            selectedFiles := ["stats"] |}
         {| fopen_gives_file := true; errno_after_fopen := 0;
            fputs_succeeds := true; errno_after_fputs := 0 |}
       = Some calls
    /\ fputs text ∈ calls.
Proof.
  apply copy_is_plain_save;
    [reflexivity | discriminate | vm_compute; reflexivity | reflexivity].
Defined.

(** A parent of 1200 by 800 gives a dialog of 800 by 600. *)
Lemma dialog_fits_its_parent_demo :
  dialog_size (newTapParameterDialog 1200 800 0) = (800, 600).
Proof.
  refine (proj1 (dialog_fits_its_parent 1200 800 0 _ _ _ _)); lia.
Defined.
